(** * gen_gdf_file.py: correlation graph (.GDF) generator

    A shallow embedding of [data_viz/corr_graph/src/gen_gdf_file.py].

    The script is effectful Python: it talks to the h2o backend, opens a
    file and writes lines, and any of those calls can raise.  It is
    embedded in a small monad that records the events of a run (backend
    start and stop, file open and close, every [out.write], every
    [print]) and carries the first exception raised.

    Floating point values are IEEE binary64, as in Python: Rocq's
    primitive floats. *)

From Stdlib Require Import String Ascii List Floats Arith Bool Lia.
From Stdlib Require Import Permutation.
From Stdlib Require Import DecimalString.
From Equations Require Import Equations.
From Stdlib Require ZArith PArith DecimalNat.
Import ListNotations.

Set Warnings "-inexact-float".

Open Scope string_scope.
Open Scope list_scope.

(* ================================================================== *)
(** * Constants (the configuration block of the script)                *)
(* ================================================================== *)

Definition IN_FILE_PATH_STRING : string :=
  "../../../02_analytical_data_prep/data/loan.csv".
Definition OUT_FILE_PATH_STRING : string := "loan.gdf".
Definition COL_TYPE_DICT : list (string * string) := [].
Definition SEP_STRING : string := ",".
Definition NA_STRING_LIST : list string := [""].
Definition REPLACE_CHAR : string := "_".
Definition NUM_LEVELS_THRESHOLD : nat := 25.
Definition CORR_THRESHOLD : float := 0.01%float.
Definition DROP_LIST : list string := ["id"].

(* ================================================================== *)
(** * Exceptions, events and the run monad                             *)
(* ================================================================== *)

(** The external calls of the script, each of which may raise. *)
Inductive stage : Type :=
| StInit        (* h2o.init *)
| StImport      (* h2o.import_file *)
| StDrop        (* raw_frame.drop(DROP_LIST) *)
| StEncode      (* the frame operations of the encoding loop *)
| StImpute      (* .impute(method='median') *)
| StCor         (* .cor() *)
| StOpen        (* open(out_file_path_string, 'w+') *)
| StShutdown.   (* h2o.cluster().shutdown() *)

(** What can be raised: Python's own errors, the failure of an external
    call, and the errors h2o raises by itself: [H2OValueError] for a
    request it refuses (a column that is not there, the levels of a
    column that is not categorical), and [H2OError], which stands for
    any other error of h2o's, for a request the server cannot carry
    out. *)
Inductive exn : Type :=
| IndexError
| KeyError (k : string)
| BackendError (st : stage)
| AttributeError
| H2OValueError
| H2OError.

Inductive result (A : Type) : Type :=
| OK (a : A)
| Raise (e : exn).
Arguments OK {A} a.
Arguments Raise {A} e.

(** One line given to [out.write]. [render_line] below gives its text. *)
Inductive gdf_line : Type :=
| NodeDef
| NodeLine (i : nat) (name : string)
| EdgeDef
| EdgeLine (i j : nat) (weight : float).

Inductive event : Type :=
| EvInit
| EvShutdown
| EvOpen (path : string)
| EvWrite (l : gdf_line)
| EvClose
| EvPrint (s : string).

(** A run: the events that happened, in order, and how it ended. *)
Definition M (A : Type) : Type := (list event * result A)%type.

Definition ret {A} (a : A) : M A := ([], OK a).

Definition raise {A} (e : exn) : M A := ([], Raise e).

Definition bind {A B} (m : M A) (f : A -> M B) : M B :=
  match m with
  | (t, OK a) => let (t', r) := f a in (t ++ t', r)
  | (t, Raise e) => (t, Raise e)
  end.

Definition emit (e : event) : M unit := ([e], OK tt).

Definition lift {A} (r : result A) : M A := ([], r).

Definition trace {A} (m : M A) : list event := fst m.
Definition outcome {A} (m : M A) : result A := snd m.

Declare Scope run_scope.
Delimit Scope run_scope with run.
Notation "x <- c1 ;; c2" := (bind c1 (fun x => c2))
  (at level 61, c1 at next level, right associativity) : run_scope.
Notation "c1 ;; c2" := (bind c1 (fun _ => c2))
  (at level 61, right associativity) : run_scope.
Open Scope run_scope.

(** [for x in l: body(x)] *)
Fixpoint for_each {A} (l : list A) (body : A -> M unit) : M unit :=
  match l with
  | [] => ret tt
  | x :: l' => body x ;; for_each l' body
  end.

(** Python's [range(a, b)]. *)
Definition range (a b : nat) : list nat := seq a (b - a).

(** [finally]: [cleanup] runs whether or not [body] raised; the
    exception of [body], if any, is re-raised afterwards. *)
Definition finally {A} (body : M A) (cleanup : M unit) : M A :=
  match body with
  | (t, r) =>
      match cleanup with
      | (t', OK _) => (t ++ t', r)
      | (t', Raise e) => (t ++ t', Raise e)
      end
  end.

(** What the outside world does to one run: which external call fails. *)
Definition oracle : Type := stage -> bool.

Definition external (fails : oracle) (st : stage) : M unit :=
  if fails st then raise (BackendError st) else ret tt.

Definition print (s : string) : M unit := emit (EvPrint s).

(* ================================================================== *)
(** * The Pandas data frame handed to the writer                       *)
(* ================================================================== *)

(** [columns]: the column labels; [values]: the rows.
    [shape[0]] is the number of rows, [shape[1]] the number of columns. *)
Record DataFrame : Type := mkDataFrame {
  columns : list string;
  values : list (list float)
}.

Definition shape0 (df : DataFrame) : nat := length (values df).
Definition shape1 (df : DataFrame) : nat := length (columns df).

(** [df.columns[i]] *)
Definition columns_at (df : DataFrame) (i : nat) : result string :=
  match nth_error (columns df) i with
  | Some s => OK s
  | None => Raise IndexError
  end.

(** [df.iat[i,j]] *)
Definition iat (df : DataFrame) (i j : nat) : result float :=
  match nth_error (values df) i with
  | Some row =>
      match nth_error row j with
      | Some x => OK x
      | None => Raise IndexError
      end
  | None => Raise IndexError
  end.

(** A frame as Pandas builds them: every row has one cell per column. *)
Definition rectangular (df : DataFrame) : Prop :=
  Forall (fun row => length row = length (columns df)) (values df).

(** A correlation matrix has as many rows as columns. *)
Definition square (df : DataFrame) : Prop :=
  rectangular df /\ shape0 df = shape1 df.

(* ================================================================== *)
(** * write_gdf                                                        *)
(* ================================================================== *)

(** Python's [a > b] on floats (false when either side is NaN). *)
Definition float_gt (a b : float) : bool := PrimFloat.ltb b a.

(** [with open(path, 'w+') as out: body] *)
Definition with_open {A} (fails : oracle) (path : string) (body : M A) : M A :=
  external fails StOpen ;;
  emit (EvOpen path) ;;
  finally body (emit EvClose).

Definition write (l : gdf_line) : M unit := emit (EvWrite l).

(** Lines 104-105, the loop under [# write node labels]. *)
Definition write_node_labels (corr_frame_df : DataFrame) : M unit :=
  for_each (range 0 (shape0 corr_frame_df)) (fun i =>
    name <- lift (columns_at corr_frame_df i) ;;
    write (NodeLine i name)).

(** Lines 111-115, the body of the loops under [# write edge weights]. *)
Definition write_edge (corr_frame_df : DataFrame) (corr_threshold : float)
    (i j : nat) : M unit :=
  if Nat.ltb j i then
    ij_ <- lift (iat corr_frame_df i j) ;;
    if float_gt ij_ corr_threshold
    then write (EdgeLine i j ij_)
    else ret tt
  else ret tt.

(** Lines 109-115. *)
Definition write_edge_weights (corr_frame_df : DataFrame)
    (corr_threshold : float) : M unit :=
  for_each (range 0 (shape0 corr_frame_df)) (fun i =>
    for_each (range 0 (shape1 corr_frame_df)) (fun j =>
      write_edge corr_frame_df corr_threshold i j)).

Definition write_gdf (fails : oracle) (corr_frame_df : DataFrame)
    (out_file_path_string : string) (corr_threshold : float) : M unit :=
  print "Writing GDF file ..." ;;
  with_open fails out_file_path_string (
    (* write node labels *)
    write NodeDef ;;
    write_node_labels corr_frame_df ;;
    (* write edge weights *)
    write EdgeDef ;;
    write_edge_weights corr_frame_df corr_threshold) ;;
  print "Done.".

(** ** The text of the file *)

(** [str(i)] for a non-negative integer. *)
Definition str_nat (n : nat) : string :=
  NilEmpty.string_of_uint (Nat.to_uint n).

Definition newline : string := String (ascii_of_nat 10) EmptyString.

Section Rendering.

(** [str(x)] for a float: Python's shortest-representation printer,
    which is not modelled; the file text is given relative to it. *)
Variable str_float : float -> string.

Definition render_line (l : gdf_line) : string :=
  match l with
  | NodeDef => "nodedef>name VARCHAR,label VARCHAR" ++ newline
  | NodeLine i name => str_nat i ++ "," ++ name ++ newline
  | EdgeDef => "edgedef>node1 VARCHAR,node2 VARCHAR, weight DOUBLE" ++ newline
  | EdgeLine i j w =>
      str_nat i ++ "," ++ str_nat j ++ "," ++ str_float w ++ newline
  end.

End Rendering.

(** The lines written during a run, in order. *)
Fixpoint written (t : list event) : list gdf_line :=
  match t with
  | [] => []
  | EvWrite l :: t' => l :: written t'
  | _ :: t' => written t'
  end.

Definition file_text (str_float : float -> string) (t : list event) : string :=
  String.concat "" (map (render_line str_float) (written t)).

(** The node ids and edge endpoints among written lines. *)
Fixpoint node_lines (ls : list gdf_line) : list (nat * string) :=
  match ls with
  | [] => []
  | NodeLine i name :: ls' => (i, name) :: node_lines ls'
  | _ :: ls' => node_lines ls'
  end.

Fixpoint edge_lines (ls : list gdf_line) : list (nat * nat * float) :=
  match ls with
  | [] => []
  | EdgeLine i j w :: ls' => (i, j, w) :: edge_lines ls'
  | _ :: ls' => edge_lines ls'
  end.

(** The endpoints of the edge lines, as written and as unordered pairs. *)
Definition edge_keys (ls : list gdf_line) : list (nat * nat) :=
  map fst (edge_lines ls).

Definition unordered (k : nat * nat) : nat * nat :=
  (Nat.min (fst k) (snd k), Nat.max (fst k) (snd k)).

(* ================================================================== *)
(** * The h2o frame                                                    *)
(* ================================================================== *)

(** A cell of a column: missing, a string (the label of an enum cell,
    or the text of a character cell), or a number. *)
Inductive cell : Type :=
| NA
| Str (s : string)
| Num (x : float).

(** A column: its name, its h2o type (['enum'], ['int'], ['real'],
    ['string'], ['time'], ['uuid'], ['unknown']), its levels when it is
    categorical, and its rows. *)
Record Column : Type := mkColumn {
  col_name : string;
  col_type : string;
  col_levels : list string;
  col_data : list cell
}.

(** A frame is an ordered collection of columns. *)
Definition H2OFrame : Type := list Column.

Definition names (fr : H2OFrame) : list string := map col_name fr.

Definition mem (s : string) (l : list string) : bool :=
  existsb (String.eqb s) l.

(** [fr[name]] *)
Definition getitem (fr : H2OFrame) (name : string) : result Column :=
  match find (fun c => String.eqb (col_name c) name) fr with
  | Some c => OK c
  | None => Raise (KeyError name)
  end.

(** The frame without the columns of a name, or of a list of names. *)
Definition without (fr : H2OFrame) (name : string) : H2OFrame :=
  filter (fun c => negb (String.eqb (col_name c) name)) fr.

Definition without_list (fr : H2OFrame) (l : list string) : H2OFrame :=
  filter (fun c => negb (mem (col_name c) l)) fr.

(** [fr.drop(name)] and [fr.drop(list)]: h2o refuses to drop a column
    that the frame does not have. *)
Definition drop (fr : H2OFrame) (name : string) : result H2OFrame :=
  if mem name (names fr) then OK (without fr name) else Raise H2OValueError.

Definition drop_list (fr : H2OFrame) (l : list string) : result H2OFrame :=
  if forallb (fun name => mem name (names fr)) l
  then OK (without_list fr l)
  else Raise H2OValueError.

(** [col.columns = [new_name]] *)
Definition set_columns (c : Column) (new_name : string) : Column :=
  mkColumn new_name (col_type c) (col_levels c) (col_data c).

(** The name h2o gives to a column added to a frame whose columns bear
    the names [taken]: the name itself when it is new, else the name
    followed by the first of 0, 1, 2, ... that makes it new.  (There
    are more candidates than names taken, so [fuel] does not run
    out.) *)
Fixpoint numbered (fuel k : nat) (taken : list string) (name : string)
  : string :=
  match fuel with
  | 0 => name ++ str_nat k
  | S fuel' =>
      if mem (name ++ str_nat k) taken
      then numbered fuel' (S k) taken name
      else name ++ str_nat k
  end.

Definition uniquify (taken : list string) (name : string) : string :=
  if mem name taken
  then numbered (List.length taken) 0 taken name
  else name.

(** [fr.cbind(col)]: the column is appended, renamed when its name is
    already that of a column of the frame. *)
Definition cbind (fr : H2OFrame) (c : Column) : H2OFrame :=
  fr ++ [set_columns c (uniquify (names fr) (col_name c))].

(** [col.categories()]: the levels of a categorical column.  h2o
    refuses the request for a column of another type, and the Python
    wrapper indexes into an empty list when the column has no level. *)
Definition categories (c : Column) : result (list string) :=
  if String.eqb (col_type c) "enum" then
    match col_levels c with
    | [] => Raise IndexError
    | _ :: _ => OK (col_levels c)
    end
  else Raise H2OValueError.

(** [col.ascharacter()] *)
Definition ascharacter (c : Column) : Column :=
  mkColumn (col_name c) "string" [] (col_data c).

(** [col[mask] = v]: the cells selected by the mask take the value. *)
Definition assign_where (mask : cell -> bool) (v : cell) (c : Column) : Column :=
  mkColumn (col_name c) (col_type c) (col_levels c)
    (map (fun x => if mask x then v else x) (col_data c)).

(** [col == level] on a character column, cell by cell. *)
Definition cell_eq (level : string) (x : cell) : bool :=
  match x with
  | Str s => String.eqb s level
  | _ => false
  end.

(** What the script leaves to the backend and to the interpreter, and
    this development does not fix:
    - [ne_number x v]: the mask cell of [col != v] for a character
      column [col] and a number [v];
    - [asnumeric_cell]: the cell-wise coercion of [col.asnumeric()];
    - [impute_median]: a column's rows after median imputation;
    - [slice_shares]: whether the frame [fr[list]] shares its columns
      with [fr], so that an in-place change of the one is seen in the
      other;
    - [pearson]: the Pearson coefficient of two columns;
    - [dict_order]: the order in which a dictionary yields its items,
      which Python 2 leaves open: some rearrangement of them. *)
Record Backend : Type := mkBackend {
  ne_number : cell -> float -> bool;
  asnumeric_cell : cell -> cell;
  impute_median : list cell -> list cell;
  slice_shares : bool;
  pearson : list cell -> list cell -> float;
  dict_order : list (string * string) -> list (string * string);
  dict_order_perm : forall l, Permutation (dict_order l) l
}.

(** [fr.types.items()]: the name and type of every column, in the
    order of the dictionary. *)
Definition types_items (B : Backend) (fr : H2OFrame) : list (string * string) :=
  dict_order B (map (fun c => (col_name c, col_type c)) fr).

(** [col.asnumeric()].  The cells of the columns the script coerces are
    1, -1 or missing: whole numbers, which h2o types int. *)
Definition asnumeric (B : Backend) (c : Column) : Column :=
  mkColumn (col_name c) "int" [] (map (asnumeric_cell B) (col_data c)).

(* ================================================================== *)
(** * Name sanitization and collision remedy                           *)
(* ================================================================== *)

(** The character class compiled into [search_str] (line 133), by
    character code: slash, backslash, semicolon, comma, the six
    characters of the whitespace class (space, tab, newline, return,
    form feed, vertical tab), dot, less-than, greater-than, ampersand,
    exclamation mark, colon, double quote, both parentheses, star,
    plus, question mark, bar, equals, hash, at. *)
Definition search_str (c : ascii) : bool :=
  existsb (Nat.eqb (nat_of_ascii c))
    [ 47; 92; 59; 44;
      32; 9; 10; 13; 12; 11;
      46; 47; 60; 62; 38; 33; 58; 34; 41; 40; 42; 43; 63; 124; 61; 35; 64 ].

(** The class of the second substitution: the single quote. *)
Definition quote_str (c : ascii) : bool := Nat.eqb (nat_of_ascii c) 39.

(** [re.sub(cls, repl, s)] for a one-character class. *)
Fixpoint re_sub (cls : ascii -> bool) (repl s : string) : string :=
  match s with
  | EmptyString => EmptyString
  | String c s' =>
      (if cls c then repl else String c EmptyString) ++ re_sub cls repl s'
  end.

Definition sanitize (s : string) : string :=
  re_sub quote_str REPLACE_CHAR (re_sub search_str REPLACE_CHAR s).

(** [REPLACE_CHAR.join([a, b])] *)
Definition join2 (a b : string) : string := a ++ REPLACE_CHAR ++ b.

(** The number of names in [l] at least as long as [s]: what is left for
    the remedy loop to run into. *)
Definition pending (l : list string) (s : string) : nat :=
  List.length (filter (fun x => Nat.leb (String.length s) (String.length x)) l).

Lemma length_append (a b : string) :
  String.length (a ++ b) = String.length a + String.length b.
Proof. induction a as [|c a IH]; simpl; [reflexivity | now rewrite IH]. Defined.

Lemma pending_step (l : list string) (s : string) :
  mem s l = true -> pending l (s ++ REPLACE_CHAR) < pending l s.
Proof.
  unfold pending, mem. induction l as [|x l IH]; simpl; intros H.
  - discriminate.
  - rewrite length_append. simpl String.length.
    destruct (String.eqb s x) eqn:E.
    + apply String.eqb_eq in E. subst x.
      replace (Nat.leb (String.length s + 1) (String.length s)) with false
        by (symmetry; apply Nat.leb_gt; lia).
      rewrite Nat.leb_refl. simpl.
      apply Nat.lt_succ_r.
      clear. induction l as [|y l IH]; simpl; [lia|].
      destruct (Nat.leb (String.length s + 1) (String.length y)) eqn:E1.
      * apply Nat.leb_le in E1.
        replace (Nat.leb (String.length s) (String.length y)) with true
          by (symmetry; apply Nat.leb_le; lia).
        simpl. lia.
      * destruct (Nat.leb (String.length s) (String.length y)); simpl; lia.
    + simpl in H. specialize (IH H). rewrite length_append in IH. simpl String.length in IH.
      destruct (Nat.leb (String.length s + 1) (String.length x)) eqn:E1.
      * apply Nat.leb_le in E1.
        replace (Nat.leb (String.length s) (String.length x)) with true
          by (symmetry; apply Nat.leb_le; lia).
        simpl. lia.
      * destruct (Nat.leb (String.length s) (String.length x)); simpl; lia.
Defined.

Definition inspect {A} (a : A) : {b : A | a = b} := exist _ a eq_refl.

(** The collision remedy (lines 170-171):
    [while new_name in new_name_list: new_name += REPLACE_CHAR]. *)
Equations remedy (new_name_list : list string) (new_name : string) : string
  by wf (pending new_name_list new_name) lt :=
remedy new_name_list new_name with inspect (mem new_name new_name_list) := {
  | exist _ true H => remedy new_name_list (new_name ++ REPLACE_CHAR)
  | exist _ false _ => new_name
}.
Next Obligation. apply pending_step. assumption. Defined.

(* ================================================================== *)
(** * main: the encoding loop                                          *)
(* ================================================================== *)

(** [enumerate(l)] *)
Definition enumerate {A} (l : list A) : list (nat * A) :=
  combine (seq 0 (List.length l)) l.

(** A backend call of the encoding loop that fetches [raw_frame[name]]. *)
Definition fetch (fails : oracle) (raw_frame : H2OFrame) (name : string)
  : M Column :=
  external fails StEncode ;;
  lift (getitem raw_frame name).

(** Lines 173-177: the indicator column of [level], named [new_name]. *)
Definition indicator (B : Backend) (col : Column) (new_name level : string)
  : Column :=
  let new_frame := ascharacter col in                        (* coerce to char *)
  let new_frame := set_columns new_frame new_name in         (* new name *)
  let new_frame :=
    assign_where (cell_eq level) (Str "1.0") new_frame in    (* positive condition *)
  let new_frame :=
    assign_where (fun x => ne_number B x 1.0%float) (Str "-1.0")
      new_frame in                                           (* negative condition *)
  asnumeric B new_frame.                                     (* coerce to num *)

(** The variables the loop updates: the frame and the list used to
    check for name collisions.  (The progress index [i] of the script is
    written and never read, and is left out.) *)
Definition loop_state : Type := (H2OFrame * list string)%type.

(** The body of the loop over the levels (lines 158-178). *)
Definition encode_level (B : Backend) (fails : oracle)
    (name name_prefix : string) (level_list : list string)
    (jl : nat * string) (st : loop_state) : M loop_state :=
  let '(j, level) := jl in
  let '(raw_frame, new_name_list) := st in
  (* don't create perfectly correlated pairs from categorical binary vars *)
  if (List.length level_list <=? 2)%nat && (0 <? j)%nat then
    ret st
  else
    let level_suffix := sanitize level in
    let new_name := join2 name_prefix level_suffix in
    (* remedy any name collisions *)
    let new_name := remedy new_name_list new_name in
    let new_name_list := new_name_list ++ [new_name] in
    col <- fetch fails raw_frame name ;;
    let new_frame := indicator B col new_name level in
    let raw_frame := cbind raw_frame new_frame in            (* add to original frame *)
    ret (raw_frame, new_name_list).

(** A [for] loop that updates loop variables. *)
Fixpoint for_fold {A S} (l : list A) (body : A -> S -> M S) (st : S) : M S :=
  match l with
  | [] => ret st
  | x :: l' => st' <- body x st ;; for_fold l' body st'
  end.

(** The body of the loop over [encode_list] (lines 152-183). *)
Definition encode_column (B : Backend) (fails : oracle)
    (name : string) (st : loop_state) : M loop_state :=
  let name_prefix := sanitize name in
  col <- fetch fails (fst st) name ;;
  level_list <- lift (categories col) ;;
  st' <- for_fold (enumerate level_list)
           (encode_level B fails name name_prefix level_list) st ;;
  (* drop original categorical column *)
  let '(raw_frame, new_name_list) := st' in
  raw_frame <- lift (drop raw_frame name) ;;
  ret (raw_frame, new_name_list).

(** Lines 141-142. *)
Definition try_name_list (B : Backend) (raw_frame : H2OFrame) : list string :=
  map fst
    (filter (fun nt =>
               negb (mem (snd nt) ["unknown"; "uuid"; "time"; "real"; "int"]))
       (types_items B raw_frame)).

(** A list comprehension with a condition that may raise. *)
Fixpoint filter_raising {A} (p : A -> result bool) (l : list A) : result (list A) :=
  match l with
  | [] => OK []
  | x :: l' =>
      match p x with
      | Raise e => Raise e
      | OK b =>
          match filter_raising p l' with
          | Raise e => Raise e
          | OK r => OK (if b then x :: r else r)
          end
      end
  end.

(** The condition of lines 146-147 on one name. *)
Definition few_levels (raw_frame : H2OFrame) (name : string) : result bool :=
  match getitem raw_frame name with
  | Raise e => Raise e
  | OK col =>
      match categories col with
      | Raise e => Raise e
      | OK level_list =>
          OK (List.length level_list <? NUM_LEVELS_THRESHOLD)%nat
      end
  end.

(** Lines 146-147. *)
Definition encode_list (B : Backend) (raw_frame : H2OFrame)
  : result (list string) :=
  filter_raising (few_levels raw_frame) (try_name_list B raw_frame).

(* ================================================================== *)
(** * main: correlation and output                                     *)
(* ================================================================== *)

(** Line 188-189. *)
Definition input_list (B : Backend) (raw_frame : H2OFrame) : list string :=
  map fst
    (filter (fun nt => mem (snd nt) ["real"; "int"]) (types_items B raw_frame)).

(** [fr[list]] *)
Fixpoint select (fr : H2OFrame) (l : list string) : result H2OFrame :=
  match l with
  | [] => OK []
  | name :: l' =>
      match getitem fr name with
      | Raise e => Raise e
      | OK c =>
          match select fr l' with
          | Raise e => Raise e
          | OK r => OK (c :: r)
          end
      end
  end.

(** Line 191, [raw_frame[input_list].impute(method='median')]: the
    imputation is done in place on the frame [raw_frame[input_list]],
    whose value is not kept.  What [raw_frame] holds afterwards depends
    on whether that frame shares its columns with [raw_frame]. *)
Definition impute_selection (B : Backend) (raw_frame : H2OFrame)
    (l : list string) : H2OFrame :=
  if slice_shares B then
    map (fun c =>
           if mem (col_name c) l
           then mkColumn (col_name c) (col_type c) (col_levels c)
                  (impute_median B (col_data c))
           else c)
      raw_frame
  else raw_frame.

(** What [fr.cor()] returns: a number for a frame of one column, a
    frame of coefficients for a frame of more. *)
Inductive correlation : Type :=
| CorNumber (x : float)
| CorFrame (df : DataFrame).

(** [fr.cor()]: the matrix of the pairwise coefficients, labelled and
    ordered by the columns of [fr]; the server fails on a frame without
    columns. *)
Definition cor (B : Backend) (fr : H2OFrame) : result correlation :=
  match fr with
  | [] => Raise H2OError
  | [c] => OK (CorNumber (pearson B (col_data c) (col_data c)))
  | _ :: _ :: _ =>
      OK (CorFrame
            (mkDataFrame (names fr)
               (map (fun ci =>
                       map (fun cj => pearson B (col_data ci) (col_data cj)) fr)
                  fr)))
  end.

(** [corr_frame.as_data_frame()]: a number has no such method. *)
Definition as_data_frame (r : correlation) : result DataFrame :=
  match r with
  | CorNumber _ => Raise AttributeError
  | CorFrame df => OK df
  end.

(** [main].  [parsed] is the frame [h2o.import_file] builds from the
    input file when it succeeds. *)
Definition main (B : Backend) (fails : oracle) (parsed : H2OFrame) : M unit :=
  (* start h2o, import file *)
  external fails StInit ;;
  emit EvInit ;;
  external fails StImport ;;
  let raw_frame := parsed in
  external fails StDrop ;;
  raw_frame <- lift (drop_list raw_frame DROP_LIST) ;;
  (* initialize encoding loop vars *)
  let new_name_list := [] in
  names_to_encode <- lift (encode_list B raw_frame) ;;
  (* encoding loop *)
  print "Encoding enums ..." ;;
  st <- for_fold names_to_encode (encode_column B fails)
          (raw_frame, new_name_list) ;;
  let raw_frame := fst st in
  print "Done." ;;
  (* create correlation matrix *)
  let inputs := input_list B raw_frame in
  external fails StImpute ;;
  let raw_frame := impute_selection B raw_frame inputs in
  print "Calculating Pearson correlations ..." ;;
  external fails StCor ;;
  selected <- lift (select raw_frame inputs) ;;
  corr_frame <- lift (cor B selected) ;;
  print "Done." ;;
  (* create output *)
  corr_frame_df <- lift (as_data_frame corr_frame) ;;
  write_gdf fails corr_frame_df OUT_FILE_PATH_STRING CORR_THRESHOLD ;;
  (* shutdown h2o *)
  external fails StShutdown ;;
  emit EvShutdown.

(* ================================================================== *)
(** * Vocabulary of the statements                                    *)
(* ================================================================== *)

(** The node line of a numbered column. *)
Definition node_line_of (p : nat * string) : gdf_line :=
  NodeLine (fst p) (snd p).

(** [s] with the replacement character appended [k] times. *)
Fixpoint appended (s : string) (k : nat) : string :=
  match k with
  | 0 => s
  | S k' => appended (s ++ REPLACE_CHAR) k'
  end.

(** The levels that get an indicator: all of them, or only the first
    when there are at most two (the test of line 162). *)
Definition kept_levels (level_list : list string) : list string :=
  if (List.length level_list <=? 2)%nat then firstn 1 level_list else level_list.

(** The effect of one pass through the else-branch of lines 164-178. *)
Definition add_indicator (B : Backend) (name_prefix : string) (col : Column)
    (st : loop_state) (level : string) : loop_state :=
  let new_name := remedy (snd st) (join2 name_prefix (sanitize level)) in
  (cbind (fst st) (indicator B col new_name level), snd st ++ [new_name]).

(** The effect of the body of the loop over [encode_list] on a frame
    that holds the column [col], whose levels are [level_list]. *)
Definition replace_by_indicators (B : Backend) (col : Column)
    (level_list : list string) (st : loop_state) : loop_state :=
  let st' := fold_left (add_indicator B (sanitize (col_name col)) col)
               (kept_levels level_list) st in
  (without (fst st') (col_name col), snd st').

(** The test of lines 141-147 on one column whose levels can be
    asked for. *)
Definition encodable (c : Column) : bool :=
  negb (mem (col_type c) ["unknown"; "uuid"; "time"; "real"; "int"]) &&
  match categories c with
  | OK level_list => (List.length level_list <? NUM_LEVELS_THRESHOLD)%nat
  | Raise _ => false
  end.


(** A frame on which line 147 can ask every candidate for its levels:
    the columns whose type is none of the five are categorical. *)
Definition candidates_categorical (fr : H2OFrame) : Prop :=
  forall c, In c fr ->
            ~ In (col_type c) ["unknown"; "uuid"; "time"; "real"; "int"] ->
            exists level_list, categories c = OK level_list.

(** The name [cbind] gives to a column added under the name [n]: [n],
    or [n] followed by a number. *)
Definition renamed (n final : string) : Prop :=
  final = n \/ exists k, final = (n ++ str_nat k)%string.

(** [d] is the column that lines 164-178 add to the frame for the level
    [level] of [col] under the new name [new_name]: the indicator of
    lines 173-177, under the name that [cbind] gives it. *)
Definition indicator_of (B : Backend) (col : Column) (level new_name : string)
    (d : Column) : Prop :=
  d = set_columns (indicator B col new_name level) (col_name d) /\
  renamed new_name (col_name d).

(** The state of the encoding loop started on [fr0], once the columns
    named [done] are encoded: the frame is what is left of [fr0]
    followed by the columns [map fst made], the list of new names is
    [map snd made]; each column made is the indicator of a kept level
    of a column of [fr0] named in [done], under a new name that is the
    sanitized pair followed by some replacement characters; and every
    kept level of every such column has its indicator. *)
Definition encoded_state (B : Backend) (fr0 : H2OFrame) (done : list string)
    (st : loop_state) (made : list (Column * string)) : Prop :=
  fst st = without_list fr0 done ++ map fst made /\
  snd st = map snd made /\
  NoDup (names (fst st)) /\
  NoDup (snd st) /\
  Forall (fun dn =>
            exists col level_list level k,
              In col fr0 /\ In (col_name col) done /\
              categories col = OK level_list /\
              In level (kept_levels level_list) /\
              snd dn = appended (join2 (sanitize (col_name col))
                                   (sanitize level)) k /\
              indicator_of B col level (snd dn) (fst dn))
    made /\
  (forall col level_list level,
      In col fr0 -> In (col_name col) done ->
      categories col = OK level_list ->
      In level (kept_levels level_list) ->
      exists dn, In dn made /\ indicator_of B col level (snd dn) (fst dn)).

(** A run that does not shut the backend down. *)
Definition quiet {A} (m : M A) : Prop := ~ In EvShutdown (trace m).

(** A run that shuts the backend down exactly when it returns, and
    then as its last event. *)
Definition shuts_down_iff_returns (m : M unit) : Prop :=
  (In EvShutdown (trace m) <-> outcome m = OK tt) /\
  (outcome m = OK tt -> exists t, trace m = t ++ [EvShutdown]).

(** The pairs [(i, j)] with [j < i < n], row by row. *)
Definition lower_triangle (n : nat) : list (nat * nat) :=
  flat_map (fun i => map (pair i) (seq 0 i)) (seq 0 n).

(** What the two substitutions of lines 154-155 and 166-167 make of one
    character. *)
Definition sanitize_char (c : ascii) : ascii :=
  if search_str c || quote_str c then "_"%char else c.

(** A name none of whose characters is in the class of [search_str] or
    is the single quote. *)
Fixpoint clean_name (s : string) : bool :=
  match s with
  | EmptyString => true
  | String c s' => negb (search_str c || quote_str c) && clean_name s'
  end.

(* ================================================================== *)
(** * Sample inputs                                                    *)
(* ================================================================== *)

Definition no_failure : oracle := fun _ => false.

Definition demo_df : DataFrame :=
  mkDataFrame ["a"; "b"; "c"]
    [[1; 0.5; -0.9]; [0.5; 1; 0.001]; [-0.9; 0.001; 1]]%float.

(** A backend for the sample runs: a character cell differs from a
    number unless it is that number's text, [asnumeric] reads the two
    texts the script writes, imputation fills with zero, every
    coefficient is one half, and a dictionary yields its items in the
    order they were put in. *)
Definition demo_backend : Backend :=
  mkBackend
    (fun x v => match x with
                | Str s => negb (String.eqb s "1.0")
                | Num y => negb (PrimFloat.eqb y v)
                | NA => false
                end)
    (fun x => match x with
              | Str "1.0" => Num 1%float
              | Str "-1.0" => Num (-1)%float
              | Num y => Num y
              | _ => NA
              end)
    (map (fun x => match x with NA => Num 0%float | _ => x end))
    false
    (fun _ _ => 0.5%float)
    (fun l => l)
    (fun l => Permutation_refl l).


Definition demo_frame : H2OFrame :=
  [ mkColumn "id" "int" [] [Num 1; Num 2; Num 3]%float;
    mkColumn "amount" "real" [] [Num 10; NA; Num 30]%float;
    mkColumn "status" "enum" ["late"; "paid"] [Str "paid"; Str "late"; Str "paid"];
    mkColumn "grade" "enum" ["A/B"; "A,B"; "C"] [Str "A/B"; Str "C"; Str "A,B"] ].

(** Two columns with correlation -0.9. *)
Definition anticorrelated_df : DataFrame :=
  mkDataFrame ["a"; "b"] [[1; -0.9]; [-0.9; 1]]%float.

(** A matrix without columns. *)
Definition empty_df : DataFrame := mkDataFrame [] [].

(** An enum column one of whose levels reads 1.0. *)
Definition graded_column : Column :=
  mkColumn "grade" "enum" ["1.0"; "2.0"; "3.0"]
    [Str "1.0"; Str "2.0"; Str "3.0"].

(** A binary enum column. *)
Definition status_column : Column :=
  mkColumn "status" "enum" ["late"; "paid"] [Str "paid"; Str "late"; Str "paid"].

(** A column with exactly [NUM_LEVELS_THRESHOLD] levels. *)
Definition zip_column : Column :=
  mkColumn "zip" "enum" (map str_nat (seq 0 NUM_LEVELS_THRESHOLD))
    [Str "3"; Str "24"; Str "3"].

Definition wide_frame : H2OFrame :=
  [ mkColumn "id" "int" [] [Num 1; Num 2; Num 3]%float;
    mkColumn "amount" "real" [] [Num 10; NA; Num 30]%float;
    status_column;
    zip_column ].



(** A frame one of whose numeric columns bears the name that the
    indicator of a level is given. *)
Definition clash_frame : H2OFrame :=
  [ mkColumn "id" "int" [] [Num 1; Num 2; Num 3]%float;
    mkColumn "status_late" "real" [] [Num 0; Num 3; Num 0]%float;
    status_column ].


(** A frame with two rows and one column. *)
Definition tall_df : DataFrame :=
  mkDataFrame ["a"] [[1]; [0.5]]%float.

(** A frame with one row and two columns. *)
Definition wide_df : DataFrame :=
  mkDataFrame ["a"; "b"] [[1; 0.5]]%float.

(** A frame whose categorical levels hold characters of the class. *)
Definition punctuated_frame : H2OFrame :=
  [ mkColumn "home ownership" "enum" ["N/A"; "O'Neil, Inc."; "rent"]
      [Str "rent"; Str "N/A"; Str "O'Neil, Inc."] ].

(** An enum column with three levels, two of which sanitize alike. *)
Definition grade_column : Column :=
  mkColumn "grade" "enum" ["A/B"; "A,B"; "C"] [Str "A/B"; Str "C"; Str "A,B"].

(** A frame with a numeric column whose name holds a comma. *)
Definition comma_frame : H2OFrame :=
  [ mkColumn "id" "int" [] [Num 1; Num 2]%float;
    mkColumn "amount, usd" "real" [] [Num 10; Num 30]%float;
    mkColumn "term" "enum" ["36"; "60"] [Str "36"; Str "60"] ].

(** The oracle under which only the opening of the file fails. *)
Definition open_fails : oracle :=
  fun st => match st with StOpen => true | _ => false end.

(** The oracle under which only the import of the file fails. *)
Definition import_fails : oracle :=
  fun st => match st with StImport => true | _ => false end.

(* ================================================================== *)
(** * Runs: traces and outcomes                                        *)
(* ================================================================== *)

Section RunFacts.

Context {A B : Type}.

Lemma trace_bind (m : M A) (f : A -> M B) :
  trace (bind m f) =
  trace m ++ match outcome m with
             | OK a => trace (f a)
             | Raise _ => []
             end.
Proof.
  destruct m as [t [a|e]]; simpl.
  - destruct (f a); reflexivity.
  - now rewrite app_nil_r.
Qed.

Lemma outcome_bind (m : M A) (f : A -> M B) :
  outcome (bind m f) =
  match outcome m with
  | OK a => outcome (f a)
  | Raise e => Raise e
  end.
Proof.
  destruct m as [t [a|e]]; simpl; [destruct (f a)|]; reflexivity.
Qed.

Lemma bind_ret (a : A) (f : A -> M B) : bind (ret a) f = f a.
Proof. unfold bind, ret. now destruct (f a). Qed.

Lemma in_trace_bind (m : M A) (f : A -> M B) (e : event) :
  In e (trace (bind m f)) ->
  In e (trace m) \/ exists a, outcome m = OK a /\ In e (trace (f a)).
Proof.
  rewrite trace_bind. intros H. apply in_app_or in H as [H|H]; [now left|].
  destruct (outcome m) as [a|x]; [right; eauto | contradiction].
Qed.

End RunFacts.

Lemma written_app (t1 t2 : list event) :
  written (t1 ++ t2) = written t1 ++ written t2.
Proof.
  induction t1 as [|e t1 IH]; simpl; [reflexivity|].
  destruct e; simpl; now rewrite ?IH.
Qed.

Lemma in_written (t : list event) (l : gdf_line) :
  In l (written t) <-> In (EvWrite l) t.
Proof.
  induction t as [|e t IH]; simpl; [tauto|].
  destruct e; simpl; rewrite IH; split; intros H;
    try (right; exact H); try (destruct H as [H|H]; [discriminate|exact H]).
  - destruct H as [H|H]; [left; now f_equal | now right].
  - destruct H as [H|H]; [left; now injection H | now right].
Qed.

Lemma edge_lines_app (l1 l2 : list gdf_line) :
  edge_lines (l1 ++ l2) = edge_lines l1 ++ edge_lines l2.
Proof.
  induction l1 as [|x l1 IH]; simpl; [reflexivity|].
  destruct x; simpl; now rewrite ?IH.
Qed.

Lemma node_lines_app (l1 l2 : list gdf_line) :
  node_lines (l1 ++ l2) = node_lines l1 ++ node_lines l2.
Proof.
  induction l1 as [|x l1 IH]; simpl; [reflexivity|].
  destruct x; simpl; now rewrite ?IH.
Qed.

Lemma in_edge_lines (ls : list gdf_line) (i j : nat) (w : float) :
  In (i, j, w) (edge_lines ls) <-> In (EdgeLine i j w) ls.
Proof.
  induction ls as [|x ls IH]; simpl; [tauto|].
  destruct x; simpl; rewrite IH; split; intros H;
    try (right; exact H); try (destruct H as [H|H]; [discriminate|exact H]).
  - destruct H as [H|H]; [left; now injection H as -> -> -> | now right].
  - destruct H as [H|H]; [left; now injection H as -> -> -> | now right].
Qed.

(** ** [for] loops *)

Section ForEach.

Context {A : Type}.
Variable body : A -> M unit.

Lemma trace_for_each_cons (x : A) (l : list A) :
  trace (for_each (x :: l) body) =
  trace (body x) ++ match outcome (body x) with
                    | OK _ => trace (for_each l body)
                    | Raise _ => []
                    end.
Proof. simpl for_each. now rewrite trace_bind. Qed.

(** Whatever a loop does was done by one of its iterations. *)
Lemma in_trace_for_each (l : list A) (e : event) :
  In e (trace (for_each l body)) ->
  exists x, In x l /\ In e (trace (body x)).
Proof.
  induction l as [|x l IH]; [contradiction|].
  rewrite trace_for_each_cons. intros H.
  apply in_app_or in H as [H|H].
  - exists x. split; [now left | exact H].
  - destruct (outcome (body x)); [|contradiction].
    destruct (IH H) as (y & Hy & He). exists y. split; [now right | exact He].
Qed.

(** A loop none of whose iterations raises runs them all. *)
Lemma for_each_ok (l : list A) :
  (forall x, In x l -> outcome (body x) = OK tt) ->
  outcome (for_each l body) = OK tt /\
  trace (for_each l body) = flat_map (fun x => trace (body x)) l.
Proof.
  induction l as [|x l IH]; intros H; [split; reflexivity|].
  assert (Hx : outcome (body x) = OK tt) by (apply H; now left).
  destruct IH as [IH1 IH2]; [intros y Hy; apply H; now right|].
  split.
  - simpl for_each. rewrite outcome_bind, Hx. exact IH1.
  - rewrite trace_for_each_cons, Hx, IH2. reflexivity.
Qed.

(** A loop stops at the first iteration that raises. *)
Lemma for_each_raise (l1 l2 : list A) (x : A) (e : exn) :
  (forall y, In y l1 -> outcome (body y) = OK tt) ->
  outcome (body x) = Raise e ->
  outcome (for_each (l1 ++ x :: l2) body) = Raise e /\
  trace (for_each (l1 ++ x :: l2) body) =
    flat_map (fun y => trace (body y)) l1 ++ trace (body x).
Proof.
  induction l1 as [|y l1 IH]; intros H Hx.
  - simpl app. split.
    + simpl for_each. now rewrite outcome_bind, Hx.
    + rewrite trace_for_each_cons, Hx. simpl. now rewrite app_nil_r.
  - assert (Hy : outcome (body y) = OK tt) by (apply H; now left).
    destruct IH as [IH1 IH2]; [intros z Hz; apply H; now right | exact Hx |].
    split.
    + simpl. rewrite outcome_bind, Hy. exact IH1.
    + simpl app. rewrite trace_for_each_cons, Hy, IH2. simpl.
      now rewrite app_assoc.
Qed.

(** The edges of a loop are distinct when each iteration writes
    distinct edges that name the iteration. *)
Lemma edge_keys_for_each_NoDup (owner : nat * nat -> A) (l : list A) :
  NoDup l ->
  (forall x, NoDup (edge_keys (written (trace (body x))))) ->
  (forall x k, In k (edge_keys (written (trace (body x)))) -> owner k = x) ->
  NoDup (edge_keys (written (trace (for_each l body)))) /\
  (forall k, In k (edge_keys (written (trace (for_each l body)))) ->
             In (owner k) l).
Proof.
  intros Hl Hnd Hown.
  induction l as [|x l IH]; [split; [constructor | contradiction]|].
  inversion Hl as [|? ? Hx Hl']; subst.
  destruct (IH Hl') as [IH1 IH2]. clear IH.
  rewrite trace_for_each_cons.
  unfold edge_keys in *.
  rewrite written_app, edge_lines_app, map_app.
  destruct (outcome (body x)).
  - split.
    + apply NoDup_app; [apply Hnd | exact IH1 |].
      intros k Hk1 Hk2. apply Hown in Hk1. apply IH2 in Hk2.
      rewrite Hk1 in Hk2. contradiction.
    + intros k Hk. apply in_app_or in Hk as [Hk|Hk].
      * left. symmetry. now apply Hown.
      * right. now apply IH2.
  - simpl. rewrite app_nil_r. split; [apply Hnd|].
    intros k Hk. left. symmetry. now apply Hown.
Qed.

End ForEach.

(* ================================================================== *)
(** * The graph writer                                                 *)
(* ================================================================== *)

Section Writer.

Variable fails : oracle.
Variable df : DataFrame.
Variable path : string.
Variable thr : float.

(** What one iteration of the edge loops writes. *)
Lemma written_write_edge (i j : nat) :
  written (trace (write_edge df thr i j)) =
  if Nat.ltb j i then
    match iat df i j with
    | OK w => if float_gt w thr then [EdgeLine i j w] else []
    | Raise _ => []
    end
  else [].
Proof.
  unfold write_edge. destruct (Nat.ltb j i); [|reflexivity].
  destruct (iat df i j) as [w|e]; simpl; [|reflexivity].
  destruct (float_gt w thr); reflexivity.
Qed.

Lemma in_write_edge (i j a b : nat) (w : float) :
  In (EdgeLine a b w) (written (trace (write_edge df thr i j))) ->
  a = i /\ b = j /\ j < i /\ iat df i j = OK w /\ float_gt w thr = true.
Proof.
  rewrite written_write_edge.
  destruct (Nat.ltb j i) eqn:E; [|contradiction].
  apply Nat.ltb_lt in E.
  destruct (iat df i j) as [x|e]; [|contradiction].
  destruct (float_gt x thr) eqn:G; [|contradiction].
  intros [H|[]]. injection H as -> -> ->. auto.
Qed.

(** The lines of a run of the writer: nothing when the file cannot be
    opened; otherwise the node header, the node lines, and, when the
    node loop did not raise, the edge header and the edge lines. *)
Lemma written_write_gdf :
  written (trace (write_gdf fails df path thr)) =
  if fails StOpen then []
  else NodeDef :: written (trace (write_node_labels df)) ++
       match outcome (write_node_labels df) with
       | OK _ => EdgeDef :: written (trace (write_edge_weights df thr))
       | Raise _ => []
       end.
Proof.
  unfold write_gdf, with_open, external, print, write, finally.
  destruct (fails StOpen); [reflexivity|].
  destruct (write_node_labels df) as [tn [[]|e]];
    destruct (write_edge_weights df thr) as [te [[]|e']]; simpl;
    rewrite ?written_app; simpl; rewrite ?written_app; simpl;
    rewrite ?app_nil_r; reflexivity.
Qed.

(** Node lines are written by the node loop only, edge lines by the
    edge loops only. *)
Lemma edge_lines_write_node_labels :
  edge_lines (written (trace (write_node_labels df))) = [].
Proof.
  unfold write_node_labels.
  induction (range 0 (shape0 df)) as [|i l IH]; [reflexivity|].
  rewrite trace_for_each_cons, written_app, edge_lines_app.
  replace (edge_lines (written (trace
             (name <- lift (columns_at df i) ;; write (NodeLine i name)))))
    with (@nil (nat * nat * float))
    by (destruct (columns_at df i); reflexivity).
  destruct (outcome _); [exact IH | reflexivity].
Qed.

Lemma node_lines_write_edge_row (i : nat) (l : list nat) :
  node_lines
    (written (trace (for_each l (fun j => write_edge df thr i j)))) = [].
Proof.
  induction l as [|j l IH]; [reflexivity|].
  rewrite trace_for_each_cons, written_app, node_lines_app.
  rewrite written_write_edge.
  replace (node_lines
             (if Nat.ltb j i
              then match iat df i j with
                   | OK w => if float_gt w thr then [EdgeLine i j w] else []
                   | Raise _ => []
                   end
              else [])) with (@nil (nat * string)).
  - destruct (outcome _); [exact IH | reflexivity].
  - destruct (Nat.ltb j i); [|reflexivity].
    destruct (iat df i j) as [w|]; [|reflexivity].
    destruct (float_gt w thr); reflexivity.
Qed.

Lemma node_lines_write_edge_weights :
  node_lines (written (trace (write_edge_weights df thr))) = [].
Proof.
  unfold write_edge_weights.
  generalize (range 0 (shape1 df)) as cols.
  induction (range 0 (shape0 df)) as [|i l IH]; intros cols; [reflexivity|].
  rewrite trace_for_each_cons, written_app, node_lines_app.
  rewrite node_lines_write_edge_row.
  destruct (outcome _); [apply IH | reflexivity].
Qed.

Lemma edge_lines_write_gdf :
  edge_lines (written (trace (write_gdf fails df path thr))) =
  if fails StOpen then []
  else match outcome (write_node_labels df) with
       | OK _ => edge_lines (written (trace (write_edge_weights df thr)))
       | Raise _ => []
       end.
Proof.
  rewrite written_write_gdf. destruct (fails StOpen); [reflexivity|].
  simpl. rewrite edge_lines_app, edge_lines_write_node_labels.
  destruct (outcome _); reflexivity.
Qed.

(** Every edge line the edge loops write comes from one pass through
    the body at its own indices. *)
Lemma in_write_edge_weights (a b : nat) (w : float) :
  In (EdgeLine a b w) (written (trace (write_edge_weights df thr))) ->
  a < shape0 df /\ b < shape1 df /\ b < a /\
  iat df a b = OK w /\ float_gt w thr = true.
Proof.
  intros H. apply in_written in H.
  apply in_trace_for_each in H as (i & Hi & H).
  apply in_trace_for_each in H as (j & Hj & H).
  apply in_written, in_write_edge in H as (-> & -> & Hlt & Hw & Hg).
  unfold range in Hi, Hj. apply in_seq in Hi, Hj.
  repeat split; try assumption; lia.
Qed.

Lemma NoDup_edge_keys_write_edge_weights :
  NoDup (edge_keys (written (trace (write_edge_weights df thr)))).
Proof.
  unfold write_edge_weights.
  eapply proj1, (edge_keys_for_each_NoDup _ fst); [apply seq_NoDup | |].
  - intros i.
    eapply proj1, (edge_keys_for_each_NoDup _ snd); [apply seq_NoDup | |].
    + intros j. rewrite written_write_edge.
      destruct (Nat.ltb j i); [|constructor].
      destruct (iat df i j) as [w|]; [|constructor].
      destruct (float_gt w thr); [|constructor].
      repeat constructor. intros [].
    + intros j [a b] H. unfold edge_keys in H.
      apply in_map_iff in H as ([[a' b'] w] & E & H). simpl in E.
      injection E as -> ->.
      apply in_edge_lines, in_write_edge in H. simpl. tauto.
  - intros i [a b] H. unfold edge_keys in H.
    apply in_map_iff in H as ([[a' b'] w] & E & H). simpl in E.
    injection E as -> ->.
    apply in_edge_lines, in_written, in_trace_for_each in H as (j & _ & H).
    apply in_written, in_write_edge in H. simpl. tauto.
Qed.

End Writer.

(** ** The node section *)

Lemma written_flat_map {A} (f : A -> list event) (l : list A) :
  written (flat_map f l) = flat_map (fun x => written (f x)) l.
Proof.
  induction l as [|x l IH]; simpl; [reflexivity|].
  now rewrite written_app, IH.
Qed.

Lemma node_lines_of_seq (pre cols : list string) :
  flat_map (fun i => match nth_error (pre ++ cols) i with
                     | Some s => [NodeLine i s]
                     | None => []
                     end)
    (seq (List.length pre) (List.length cols)) =
  map node_line_of (combine (seq (List.length pre) (List.length cols)) cols).
Proof.
  revert pre. induction cols as [|c cols IH]; intros pre; [reflexivity|].
  simpl. rewrite nth_error_app2, Nat.sub_diag by lia. simpl.
  unfold node_line_of at 1. simpl. f_equal.
  specialize (IH (pre ++ [c])).
  rewrite <- app_assoc, length_app, Nat.add_1_r in IH. exact IH.
Qed.

Lemma node_lines_node_line_of (l : list (nat * string)) :
  node_lines (map node_line_of l) = l.
Proof.
  induction l as [|[i s] l IH]; simpl; [reflexivity | now rewrite IH].
Qed.

Lemma map_fst_enumerate {A} (l : list A) :
  map fst (enumerate l) = seq 0 (List.length l).
Proof.
  unfold enumerate. generalize 0 as a.
  induction l as [|x l IH]; intros a; simpl; [reflexivity | now rewrite IH].
Qed.

Lemma map_snd_enumerate {A} (l : list A) :
  map snd (enumerate l) = l.
Proof.
  unfold enumerate. generalize 0 as a.
  induction l as [|x l IH]; intros a; simpl; [reflexivity | now rewrite IH].
Qed.

Lemma length_enumerate {A} (l : list A) :
  List.length (enumerate l) = List.length l.
Proof. now rewrite <- (length_map fst), map_fst_enumerate, length_seq. Qed.

(** With as many rows as columns the node loop does not raise and
    writes one line per column, numbered from 0 in column order. *)
Lemma write_node_labels_square (df : DataFrame) :
  shape0 df = shape1 df ->
  outcome (write_node_labels df) = OK tt /\
  written (trace (write_node_labels df)) =
    map node_line_of (enumerate (columns df)).
Proof.
  intros Hsq. unfold write_node_labels, range. rewrite Nat.sub_0_r, Hsq.
  destruct (for_each_ok
              (fun i => name <- lift (columns_at df i) ;; write (NodeLine i name))
              (seq 0 (shape1 df))) as [Hok Htr].
  - intros i Hi. apply in_seq in Hi. unfold columns_at, shape1 in *.
    destruct (nth_error (columns df) i) eqn:E; [reflexivity|].
    apply nth_error_None in E. lia.
  - split; [exact Hok|]. rewrite Htr, written_flat_map.
    unfold enumerate, shape1.
    pose proof (node_lines_of_seq [] (columns df)) as E. simpl in E.
    rewrite <- E. apply flat_map_ext. intros i. unfold columns_at.
    destruct (nth_error (columns df) i); reflexivity.
Qed.

(** ** The edge section *)

Lemma iat_in_range (df : DataFrame) (i j : nat) :
  rectangular df -> i < shape0 df -> j < shape1 df ->
  exists w, iat df i j = OK w.
Proof.
  unfold rectangular, shape0, shape1, iat. intros Hr Hi Hj.
  destruct (nth_error (values df) i) as [row|] eqn:E.
  - assert (Hrow : List.length row = List.length (columns df)).
    { rewrite Forall_forall in Hr. apply Hr. eapply nth_error_In; eauto. }
    destruct (nth_error row j) as [x|] eqn:E'; [eauto|].
    apply nth_error_None in E'. lia.
  - apply nth_error_None in E. lia.
Qed.

Lemma outcome_write_edge (df : DataFrame) (thr : float) (i j : nat) w :
  iat df i j = OK w -> outcome (write_edge df thr i j) = OK tt.
Proof.
  unfold write_edge. intros ->. destruct (Nat.ltb j i); [|reflexivity].
  simpl. destruct (float_gt w thr); reflexivity.
Qed.

(** On a rectangular frame the edge loops do not raise, and write the
    line of [(i, j)] exactly when [i > j] and the entry itself, not its
    absolute value, is above the threshold. *)
Lemma write_edge_weights_rectangular (df : DataFrame) (thr : float) :
  rectangular df ->
  outcome (write_edge_weights df thr) = OK tt /\
  forall i j w,
    In (EdgeLine i j w) (written (trace (write_edge_weights df thr))) <->
    i < shape0 df /\ j < i /\ j < shape1 df /\
    iat df i j = OK w /\ float_gt w thr = true.
Proof.
  intros Hr.
  assert (Hrow : forall i, In i (range 0 (shape0 df)) ->
            outcome (for_each (range 0 (shape1 df))
                       (fun j => write_edge df thr i j)) = OK tt /\
            trace (for_each (range 0 (shape1 df))
                       (fun j => write_edge df thr i j)) =
            flat_map (fun j => trace (write_edge df thr i j))
              (range 0 (shape1 df))).
  { intros i Hi. apply for_each_ok. intros j Hj.
    unfold range in Hi, Hj. apply in_seq in Hi, Hj.
    destruct (iat_in_range df i j Hr) as [w Hw]; [lia | lia |].
    eapply outcome_write_edge; eauto. }
  destruct (for_each_ok
              (fun i => for_each (range 0 (shape1 df))
                          (fun j => write_edge df thr i j))
              (range 0 (shape0 df))) as [Hok Htr].
  { intros i Hi. now apply Hrow. }
  split; [exact Hok|].
  intros i j w. split.
  - intros H. apply in_write_edge_weights in H. tauto.
  - intros (Hi & Hji & Hj & Hw & Hg).
    apply in_written. unfold write_edge_weights. rewrite Htr.
    apply in_flat_map. exists i.
    assert (Hi' : In i (range 0 (shape0 df))) by (apply in_seq; lia).
    split; [exact Hi'|].
    rewrite (proj2 (Hrow i Hi')). apply in_flat_map. exists j.
    split; [apply in_seq; lia|].
    apply in_written. rewrite written_write_edge.
    apply Nat.ltb_lt in Hji. rewrite Hji, Hw, Hg. now left.
Qed.

(** ** The claims about the writer *)

(** C1: the claim is that an edge line is written for [(i, j)], [i > j],
    exactly when the absolute value of the entry exceeds the threshold,
    so that an entry of -0.9 is written at threshold 0.01.  The writer
    compares the entry itself: on the matrix with -0.9 off the diagonal
    the absolute value is above the default threshold and no edge line
    is written. *)
Theorem write_gdf_skips_negative_correlation :
  iat anticorrelated_df 1 0 = OK (-0.9)%float /\
  float_gt (PrimFloat.abs (-0.9)%float) CORR_THRESHOLD = true /\
  written (trace (write_gdf no_failure anticorrelated_df
                    OUT_FILE_PATH_STRING CORR_THRESHOLD)) =
    [NodeDef; NodeLine 0 "a"; NodeLine 1 "b"; EdgeDef].
Proof. repeat split; vm_compute; reflexivity. Qed.

(** C8: every edge line written has its first node id strictly greater
    than its second (no self-edge, no reverse edge), and no unordered
    pair of nodes is written twice; this holds for every frame, oracle,
    path and threshold. *)
Theorem write_gdf_edges_lower_triangle
    (fails : oracle) (df : DataFrame) (path : string) (thr : float) :
  (forall i j w,
      In (EdgeLine i j w) (written (trace (write_gdf fails df path thr))) ->
      j < i) /\
  NoDup (map unordered
           (edge_keys (written (trace (write_gdf fails df path thr))))).
Proof.
  assert (Hin : forall i j w,
             In (EdgeLine i j w) (written (trace (write_gdf fails df path thr))) ->
             In (EdgeLine i j w) (written (trace (write_edge_weights df thr)))).
  { intros i j w H. apply in_edge_lines in H. rewrite edge_lines_write_gdf in H.
    destruct (fails StOpen); [contradiction|].
    destruct (outcome (write_node_labels df)); [|contradiction].
    now apply in_edge_lines. }
  split.
  - intros i j w H. apply Hin, in_write_edge_weights in H. tauto.
  - apply NoDup_map_NoDup_ForallPairs.
    + intros [a b] [c d] Hab Hcd. unfold edge_keys in Hab, Hcd.
      apply in_map_iff in Hab as ([[a' b'] w] & E & Hab). simpl in E.
      injection E as -> ->.
      apply in_map_iff in Hcd as ([[c' d'] w'] & E & Hcd). simpl in E.
      injection E as -> ->.
      apply in_edge_lines, Hin, in_write_edge_weights in Hab, Hcd.
      unfold unordered. simpl. intros E. injection E as E1 E2.
      f_equal; lia.
    + unfold edge_keys. rewrite edge_lines_write_gdf.
      destruct (fails StOpen); [constructor|].
      destruct (outcome (write_node_labels df)); [|constructor].
      apply NoDup_edge_keys_write_edge_weights.
Qed.

(** C9: for a correlation matrix with n columns whose file can be
    opened, the node section is exactly n lines between the two header
    lines, one per column in matrix order, with ids 0, 1, ..., n-1 by
    column position, each rendered as the id, a comma and the name. *)
Theorem write_gdf_node_section
    (fails : oracle) (df : DataFrame) (path : string) (thr : float) :
  fails StOpen = false ->
  square df ->
  exists edges : list gdf_line,
    written (trace (write_gdf fails df path thr)) =
      NodeDef :: map node_line_of (enumerate (columns df)) ++ EdgeDef :: edges /\
    node_lines edges = [] /\
    node_lines (written (trace (write_gdf fails df path thr))) =
      enumerate (columns df) /\
    List.length (enumerate (columns df)) = shape1 df /\
    map fst (enumerate (columns df)) = seq 0 (shape1 df) /\
    map snd (enumerate (columns df)) = columns df /\
    forall str_float p,
      render_line str_float (node_line_of p) =
      (str_nat (fst p) ++ "," ++ snd p ++ newline)%string.
Proof.
  intros Hopen [Hrect Hsq].
  destruct (write_node_labels_square df Hsq) as [Hok Hw].
  exists (written (trace (write_edge_weights df thr))).
  assert (E : written (trace (write_gdf fails df path thr)) =
              NodeDef :: map node_line_of (enumerate (columns df)) ++
              EdgeDef :: written (trace (write_edge_weights df thr))).
  { rewrite written_write_gdf, Hopen, Hok, Hw. reflexivity. }
  repeat split.
  - exact E.
  - apply node_lines_write_edge_weights.
  - rewrite E. simpl. rewrite node_lines_app. simpl.
    now rewrite node_lines_write_edge_weights, app_nil_r, node_lines_node_line_of.
  - apply length_enumerate.
  - apply map_fst_enumerate.
  - apply map_snd_enumerate.
Qed.

Lemma write_gdf_node_section_witness :
  no_failure StOpen = false /\
  square demo_df /\
  exists edges : list gdf_line,
    written (trace (write_gdf no_failure demo_df "x.gdf" CORR_THRESHOLD)) =
      NodeDef :: map node_line_of (enumerate (columns demo_df)) ++ EdgeDef :: edges /\
    node_lines edges = [] /\
    node_lines (written (trace (write_gdf no_failure demo_df "x.gdf" CORR_THRESHOLD))) =
      enumerate (columns demo_df) /\
    List.length (enumerate (columns demo_df)) = shape1 demo_df /\
    map fst (enumerate (columns demo_df)) = seq 0 (shape1 demo_df) /\
    map snd (enumerate (columns demo_df)) = columns demo_df /\
    forall str_float p,
      render_line str_float (node_line_of p) =
      (str_nat (fst p) ++ "," ++ snd p ++ newline)%string.
Proof.
  assert (Hsq : square demo_df) by (split; [repeat constructor | reflexivity]).
  split; [reflexivity|]. split; [exact Hsq|].
  apply (write_gdf_node_section no_failure demo_df "x.gdf" CORR_THRESHOLD);
    [reflexivity | exact Hsq].
Defined.

(** C10: for a correlation matrix with zero columns whose file can be
    opened, the writer does not raise and the file holds exactly the
    nodedef line followed by the edgedef line. *)
Theorem write_gdf_empty_matrix
    (fails : oracle) (df : DataFrame) (path : string) (thr : float) :
  fails StOpen = false ->
  square df ->
  shape1 df = 0 ->
  write_gdf fails df path thr =
    ([EvPrint "Writing GDF file ..."; EvOpen path;
      EvWrite NodeDef; EvWrite EdgeDef; EvClose; EvPrint "Done."], OK tt) /\
  written (trace (write_gdf fails df path thr)) = [NodeDef; EdgeDef] /\
  forall str_float,
    file_text str_float (trace (write_gdf fails df path thr)) =
    ("nodedef>name VARCHAR,label VARCHAR" ++ newline ++
     "edgedef>node1 VARCHAR,node2 VARCHAR, weight DOUBLE" ++ newline)%string.
Proof.
  intros Hopen [_ Hsq] Hn. rewrite Hn in Hsq.
  destruct df as [cols vals]. unfold shape0, shape1 in *. simpl in *.
  apply length_zero_iff_nil in Hn, Hsq. subst cols vals.
  assert (E : write_gdf fails (mkDataFrame [] []) path thr =
              ([EvPrint "Writing GDF file ..."; EvOpen path;
                EvWrite NodeDef; EvWrite EdgeDef; EvClose; EvPrint "Done."],
               OK tt)).
  { unfold write_gdf, with_open, external. rewrite Hopen. reflexivity. }
  rewrite E. repeat split.
Qed.

Lemma write_gdf_empty_matrix_witness :
  no_failure StOpen = false /\
  square empty_df /\
  shape1 empty_df = 0 /\
  write_gdf no_failure empty_df "loan.gdf" CORR_THRESHOLD =
    ([EvPrint "Writing GDF file ..."; EvOpen "loan.gdf";
      EvWrite NodeDef; EvWrite EdgeDef; EvClose; EvPrint "Done."], OK tt).
Proof.
  assert (Hsq : square empty_df) by (split; [constructor | reflexivity]).
  split; [reflexivity|]. split; [exact Hsq|]. split; [reflexivity|].
  apply (write_gdf_empty_matrix no_failure empty_df "loan.gdf" CORR_THRESHOLD);
    [reflexivity | exact Hsq | reflexivity].
Defined.

(* ================================================================== *)
(** * The collision remedy                                             *)
(* ================================================================== *)

Lemma mem_In (s : string) (l : list string) : mem s l = true <-> In s l.
Proof.
  unfold mem. rewrite existsb_exists. split.
  - intros (x & Hx & E). apply String.eqb_eq in E. now subst.
  - intros H. exists s. split; [exact H | apply String.eqb_refl].
Qed.

Lemma mem_not_In (s : string) (l : list string) : mem s l = false <-> ~ In s l.
Proof.
  rewrite <- mem_In. destruct (mem s l); split; intros H;
    try discriminate; try reflexivity; try (intros E; discriminate E).
  exfalso. now apply H.
Qed.

(** The equation of the [while] loop. *)
Lemma remedy_while (l : list string) (s : string) :
  remedy l s = if mem s l then remedy l (s ++ REPLACE_CHAR) else s.
Proof.
  funelim (remedy l s).
  - now rewrite H.
  - now rewrite e.
Qed.

(** The loop ends on a name that is not in the list. *)
Lemma remedy_fresh (l : list string) (s : string) : ~ In (remedy l s) l.
Proof.
  funelim (remedy l s).
  - assumption.
  - now apply mem_not_In.
Qed.

(** The loop appends the replacement character as many times as there
    are collisions in a row, and no more. *)
Lemma remedy_least (l : list string) (s : string) :
  exists k,
    remedy l s = appended s k /\
    forall k', k' < k -> In (appended s k') l.
Proof.
  funelim (remedy l s).
  - destruct H0 as (k & E & Hk). exists (S k). split; [exact E|].
    intros [|k'] Hlt; simpl; [now apply mem_In | apply Hk; lia].
  - exists 0. split; [reflexivity | intros k' Hk'; lia].
Qed.

(* ================================================================== *)
(** * The frame operations                                             *)
(* ================================================================== *)

Lemma getitem_app (fr fr' : H2OFrame) (name : string) (col : Column) :
  getitem fr name = OK col -> getitem (fr ++ fr') name = OK col.
Proof.
  unfold getitem.
  induction fr as [|x fr IH]; simpl; [discriminate|].
  destruct (String.eqb (col_name x) name); [trivial | exact IH].
Qed.

Lemma getitem_cbind (fr : H2OFrame) (name : string) (col c : Column) :
  getitem fr name = OK col -> getitem (cbind fr c) name = OK col.
Proof. apply getitem_app. Qed.

Lemma getitem_name (fr : H2OFrame) (name : string) (col : Column) :
  getitem fr name = OK col -> In col fr /\ col_name col = name.
Proof.
  unfold getitem. destruct (find _ fr) as [c|] eqn:E; [|discriminate].
  intros H. injection H as ->. apply find_some in E as [Hin E].
  apply String.eqb_eq in E. auto.
Qed.

Lemma getitem_In (fr : H2OFrame) (c : Column) :
  NoDup (names fr) -> In c fr -> getitem fr (col_name c) = OK c.
Proof.
  unfold getitem, names. induction fr as [|x fr IH]; [contradiction|].
  intros Hnd Hin. inversion Hnd as [|? ? Hx Hnd']; subst. simpl.
  destruct Hin as [->|Hin].
  - now rewrite String.eqb_refl.
  - destruct (String.eqb (col_name x) (col_name c)) eqn:E; [|now apply IH].
    apply String.eqb_eq in E. exfalso. apply Hx. rewrite E.
    now apply in_map.
Qed.

Lemma getitem_present (fr : H2OFrame) (name : string) :
  In name (names fr) -> exists col, getitem fr name = OK col.
Proof.
  unfold getitem, names. intros H. apply in_map_iff in H as (c & E & Hc).
  destruct (find _ fr) as [c'|] eqn:F; [eauto|].
  apply (find_none _ _ F) in Hc. rewrite E, String.eqb_refl in Hc. discriminate.
Qed.

Lemma same_name_same_column (fr : H2OFrame) (c c' : Column) :
  NoDup (names fr) -> In c fr -> In c' fr -> col_name c = col_name c' -> c = c'.
Proof.
  intros Hnd Hc Hc' E.
  pose proof (getitem_In fr c Hnd Hc) as G.
  pose proof (getitem_In fr c' Hnd Hc') as G'.
  rewrite E in G. congruence.
Qed.

Lemma names_app (f1 f2 : H2OFrame) : names (f1 ++ f2) = names f1 ++ names f2.
Proof. apply map_app. Qed.

Lemma In_names (fr : H2OFrame) (c : Column) : In c fr -> In (col_name c) (names fr).
Proof. apply in_map. Qed.

Lemma NoDup_snoc {A} (l : list A) (x : A) :
  NoDup l -> ~ In x l -> NoDup (l ++ [x]).
Proof.
  intros Hl Hx. apply NoDup_app; [exact Hl | repeat constructor; intros [] |].
  intros a Ha [<-|[]]. contradiction.
Qed.

Lemma NoDup_app_disjoint {A} (l l' : list A) (x : A) :
  NoDup (l ++ l') -> In x l -> In x l' -> False.
Proof.
  induction l as [|a l IH]; simpl; intros Hnd Hl Hl'; [contradiction|].
  inversion Hnd as [|? ? Ha Hnd']; subst.
  destruct Hl as [->|Hl]; [|now apply IH].
  apply Ha. apply in_or_app. now right.
Qed.

Lemma NoDup_names_filter (p : Column -> bool) (fr : H2OFrame) :
  NoDup (names fr) -> NoDup (names (filter p fr)).
Proof.
  unfold names. induction fr as [|c fr IH]; simpl; intros H; [constructor|].
  inversion H as [|? ? Hc Hfr]; subst.
  destruct (p c); simpl; [constructor|]; auto.
  intros Hin. apply Hc. apply in_map_iff in Hin as (c' & E & Hc').
  apply filter_In in Hc' as [Hc' _]. apply in_map_iff. eauto.
Qed.

(** ** Dropping columns *)

Lemma In_without (fr : H2OFrame) (name : string) (c : Column) :
  In c (without fr name) <-> In c fr /\ col_name c <> name.
Proof.
  unfold without. rewrite filter_In, negb_true_iff.
  split; intros [H1 H2]; (split; [exact H1|]).
  - intros E. apply String.eqb_eq in E. congruence.
  - destruct (String.eqb (col_name c) name) eqn:E; [|reflexivity].
    apply String.eqb_eq in E. contradiction.
Qed.

Lemma In_without_list (fr : H2OFrame) (l : list string) (c : Column) :
  In c (without_list fr l) <-> In c fr /\ ~ In (col_name c) l.
Proof.
  unfold without_list. rewrite filter_In, negb_true_iff, mem_not_In. tauto.
Qed.

Lemma without_app (f1 f2 : H2OFrame) (name : string) :
  without (f1 ++ f2) name = without f1 name ++ without f2 name.
Proof. apply filter_app. Qed.

Lemma without_absent (fr : H2OFrame) (name : string) :
  ~ In name (names fr) -> without fr name = fr.
Proof.
  unfold without, names. induction fr as [|c fr IH]; intros H; [reflexivity|].
  simpl in *. destruct (String.eqb (col_name c) name) eqn:E.
  - apply String.eqb_eq in E. exfalso. apply H. now left.
  - simpl. rewrite IH; [reflexivity | intros Hin; apply H; now right].
Qed.

Lemma without_list_nil (fr : H2OFrame) : without_list fr [] = fr.
Proof.
  unfold without_list. induction fr as [|c fr IH]; [reflexivity|].
  cbn [filter mem existsb negb]. f_equal. exact IH.
Qed.

Lemma mem_snoc (s x : string) (l : list string) :
  mem s (l ++ [x]) = mem s l || String.eqb s x.
Proof. unfold mem. rewrite existsb_app. simpl. now rewrite orb_false_r. Qed.

Lemma without_without_list (fr : H2OFrame) (l : list string) (name : string) :
  without (without_list fr l) name = without_list fr (l ++ [name]).
Proof.
  unfold without, without_list. induction fr as [|c fr IH]; [reflexivity|].
  simpl. rewrite mem_snoc, negb_orb.
  destruct (mem (col_name c) l); simpl; [exact IH|].
  destruct (String.eqb (col_name c) name); simpl; [exact IH | now rewrite IH].
Qed.

Lemma drop_present (fr : H2OFrame) (name : string) :
  In name (names fr) -> drop fr name = OK (without fr name).
Proof. intros H. unfold drop. apply mem_In in H. now rewrite H. Qed.


Lemma drop_list_inv (fr fr' : H2OFrame) (l : list string) :
  drop_list fr l = OK fr' -> incl l (names fr) /\ fr' = without_list fr l.
Proof.
  unfold drop_list. destruct (forallb _ l) eqn:E; [|discriminate].
  intros H. injection H as <-. split; [|reflexivity].
  intros x Hx. rewrite forallb_forall in E. now apply mem_In, E.
Qed.

(** ** The names [cbind] gives *)

Lemma str_nat_inj (n m : nat) : str_nat n = str_nat m -> n = m.
Proof.
  unfold str_nat. intros H. apply DecimalNat.Unsigned.to_uint_inj.
  pose proof (NilEmpty.usu (Nat.to_uint n)) as Hn.
  rewrite H, NilEmpty.usu in Hn. now injection Hn.
Qed.

Lemma append_inj_l (a b c : string) : (a ++ b = a ++ c)%string -> b = c.
Proof.
  induction a as [|x a IH]; simpl; intros H; [exact H|].
  injection H as H. now apply IH.
Qed.

Lemma NoDup_map_injective {A B} (f : A -> B) (l : list A) :
  (forall a b, f a = f b -> a = b) -> NoDup l -> NoDup (map f l).
Proof.
  intros Hf. induction l as [|x l IH]; intros H; simpl; [constructor|].
  inversion H as [|? ? Hx Hl]; subst. constructor; [|now apply IH].
  intros Hin. apply in_map_iff in Hin as (y & E & Hy).
  apply Hf in E. now subst.
Qed.

(** The search for a number: it stops on the first candidate that is
    not taken, or when the fuel is out. *)
Lemma numbered_spec (taken : list string) (name : string) (fuel k : nat) :
  exists j,
    numbered fuel k taken name = (name ++ str_nat j)%string /\
    k <= j <= k + fuel /\
    (forall i, k <= i < j -> In (name ++ str_nat i)%string taken) /\
    (j < k + fuel -> ~ In (name ++ str_nat j)%string taken).
Proof.
  revert k. induction fuel as [|fuel IH]; intros k.
  - exists k. simpl. split; [reflexivity|]. split; [lia|].
    split; intros; lia.
  - simpl. destruct (mem (name ++ str_nat k)%string taken) eqn:E.
    + destruct (IH (S k)) as (j & Ej & Hj & Hall & Hfresh).
      exists j. split; [exact Ej|]. split; [lia|]. split.
      * intros i Hi. destruct (Nat.eq_dec i k) as [->|Hne].
        -- now apply mem_In.
        -- apply Hall. lia.
      * intros Hlt. apply Hfresh. lia.
    + exists k. split; [reflexivity|]. split; [lia|].
      split; [intros; lia | intros _; now apply mem_not_In].
Qed.

(** With as much fuel as there are names taken, the search ends on a
    name that is not taken. *)
Lemma numbered_fresh (taken : list string) (name : string) :
  ~ In (numbered (List.length taken) 0 taken name) taken.
Proof.
  destruct (numbered_spec taken name (List.length taken) 0)
    as (j & -> & Hj & Hall & Hfresh).
  destruct (Nat.lt_ge_cases j (List.length taken)) as [Hlt|Hge];
    [apply Hfresh; lia|].
  intros Hin. assert (j = List.length taken) by lia. subst j.
  assert (Hincl : incl (map (fun i => (name ++ str_nat i)%string)
                          (seq 0 (S (List.length taken)))) taken).
  { intros x Hx. apply in_map_iff in Hx as (i & <- & Hi).
    apply in_seq in Hi.
    destruct (Nat.eq_dec i (List.length taken)) as [->|Hne];
      [exact Hin | apply Hall; lia]. }
  assert (Hnd : NoDup (map (fun i => (name ++ str_nat i)%string)
                         (seq 0 (S (List.length taken))))).
  { apply NoDup_map_injective; [|apply seq_NoDup].
    intros a b H. apply append_inj_l in H. now apply str_nat_inj. }
  pose proof (NoDup_incl_length Hnd Hincl) as Hlen.
  rewrite length_map, length_seq in Hlen. lia.
Qed.

Lemma uniquify_fresh (taken : list string) (name : string) :
  ~ In (uniquify taken name) taken.
Proof.
  unfold uniquify. destruct (mem name taken) eqn:E.
  - apply numbered_fresh.
  - now apply mem_not_In.
Qed.

Lemma uniquify_renamed (taken : list string) (name : string) :
  renamed name (uniquify taken name).
Proof.
  unfold uniquify, renamed. destruct (mem name taken); [|now left].
  destruct (numbered_spec taken name (List.length taken) 0) as (j & E & _).
  right. eauto.
Qed.

(* ================================================================== *)
(** * The encoding loop                                                *)
(* ================================================================== *)

Lemma lift_OK {A} (a : A) : lift (OK a) = ret a.
Proof. reflexivity. Qed.

Lemma ret_inj {A} (a b : A) : ret a = ret b -> a = b.
Proof. unfold ret. intros H. now injection H. Qed.

Section EncodeLevel.

Variable B : Backend.
Variable fails : oracle.
Hypothesis backend_up : fails StEncode = false.

Variables (name name_prefix : string) (col : Column).

Lemma fetch_ok (fr : H2OFrame) :
  getitem fr name = OK col -> fetch fails fr name = ret col.
Proof. unfold fetch, external. now rewrite backend_up; intros ->. Qed.

(** One pass through the body of the loop over the levels. *)
Lemma encode_level_ok (level_list : list string) (j : nat) (level : string)
    (st : loop_state) :
  getitem (fst st) name = OK col ->
  encode_level B fails name name_prefix level_list (j, level) st =
  ret (if (List.length level_list <=? 2)%nat && (0 <? j)%nat
       then st
       else add_indicator B name_prefix col st level).
Proof.
  intros Hget. destruct st as [fr nnl]. unfold encode_level.
  destruct ((List.length level_list <=? 2)%nat && (0 <? j)%nat);
    [reflexivity|].
  rewrite (fetch_ok fr Hget). reflexivity.
Qed.

Lemma getitem_add_indicator (st : loop_state) (level : string) :
  getitem (fst st) name = OK col ->
  getitem (fst (add_indicator B name_prefix col st level)) name = OK col.
Proof. apply getitem_cbind. Qed.

Lemma getitem_add_indicators (levels : list string) (st : loop_state) :
  getitem (fst st) name = OK col ->
  getitem (fst (fold_left (add_indicator B name_prefix col) levels st)) name =
  OK col.
Proof.
  revert st. induction levels as [|lv levels IH]; intros st H; [exact H|].
  simpl. apply IH. now apply getitem_add_indicator.
Qed.

(** The loop over the levels, from index [a] on. *)
Lemma encode_levels_from (level_list ls : list string) (a : nat)
    (st : loop_state) :
  getitem (fst st) name = OK col ->
  for_fold (combine (seq a (List.length ls)) ls)
    (encode_level B fails name name_prefix level_list) st =
  ret (fold_left (add_indicator B name_prefix col)
         (if (List.length level_list <=? 2)%nat
          then (if (0 <? a)%nat then [] else firstn 1 ls)
          else ls)
         st).
Proof.
  revert a st. induction ls as [|l ls IH]; intros a st Hget.
  - simpl. destruct (_ <=? _)%nat; [destruct (_ <? _)%nat|]; reflexivity.
  - cbn [List.length seq combine for_fold].
    rewrite (encode_level_ok _ _ _ _ Hget), bind_ret.
    destruct (List.length level_list <=? 2)%nat eqn:E; cbn [andb].
    + destruct (0 <? a)%nat eqn:Ea.
      * rewrite (IH (S a) st Hget). reflexivity.
      * rewrite (IH (S a) _ (getitem_add_indicator st l Hget)). reflexivity.
    + rewrite (IH (S a) _ (getitem_add_indicator st l Hget)). reflexivity.
Qed.

Lemma encode_levels_ok (level_list : list string) (st : loop_state) :
  getitem (fst st) name = OK col ->
  for_fold (enumerate level_list)
    (encode_level B fails name name_prefix level_list) st =
  ret (fold_left (add_indicator B name_prefix col)
         (kept_levels level_list) st).
Proof.
  intros Hget. unfold enumerate. rewrite (encode_levels_from _ _ _ _ Hget).
  reflexivity.
Qed.

End EncodeLevel.

(** The body of the loop over [encode_list], when the backend answers,
    the frame holds the column and the column is categorical. *)
Lemma encode_column_ok (B : Backend) (fails : oracle) (name : string)
    (col : Column) (level_list : list string) (st : loop_state) :
  fails StEncode = false ->
  getitem (fst st) name = OK col ->
  categories col = OK level_list ->
  encode_column B fails name st =
  ret (replace_by_indicators B col level_list st).
Proof.
  intros Hup Hget Hcat. unfold encode_column.
  rewrite (fetch_ok fails Hup name col (fst st) Hget), bind_ret.
  rewrite Hcat, lift_OK, bind_ret.
  rewrite (encode_levels_ok B fails Hup name (sanitize name) col level_list st
             Hget), bind_ret.
  pose proof (getitem_add_indicators B name (sanitize name) col
                (kept_levels level_list) st Hget) as Hget'.
  unfold replace_by_indicators.
  destruct (getitem_name _ _ _ Hget) as [_ ->].
  destruct (fold_left _ _ _) as [fr' nnl'].
  cbn [fst snd] in *.
  destruct (getitem_name _ _ _ Hget') as [Hin Hname].
  rewrite drop_present, lift_OK, bind_ret; [reflexivity|].
  rewrite <- Hname. now apply In_names.
Qed.

(** The levels that [categories()] returns are never none. *)
Lemma categories_nonempty (col : Column) (level_list : list string) :
  categories col = OK level_list ->
  col_type col = "enum" /\ level_list = col_levels col /\
  exists level rest, level_list = level :: rest.
Proof.
  unfold categories. destruct (String.eqb (col_type col) "enum") eqn:E;
    [|discriminate].
  apply String.eqb_eq in E.
  destruct (col_levels col) as [|level rest]; [discriminate|].
  intros H. injection H as <-. eauto.
Qed.

(** The encoding loop writes nothing and prints nothing. *)
Lemma trace_for_fold_nil {A S} (l : list A) (body : A -> S -> M S) (st : S) :
  (forall x s, trace (body x s) = []) -> trace (for_fold l body st) = [].
Proof.
  intros Hb. revert st. induction l as [|x l IH]; intros st; [reflexivity|].
  simpl. rewrite trace_bind, Hb. destruct (outcome (body x st)); simpl; auto.
Qed.

Lemma trace_fetch (fails : oracle) (fr : H2OFrame) (name : string) :
  trace (fetch fails fr name) = [].
Proof.
  unfold fetch, external. destruct (fails StEncode); [reflexivity|].
  now destruct (getitem fr name).
Qed.

Lemma trace_lift {A} (r : result A) : trace (lift r) = [].
Proof. reflexivity. Qed.

Lemma trace_bind_nil {A C} (m : M A) (f : A -> M C) :
  trace m = [] -> (forall a, trace (f a) = []) -> trace (bind m f) = [].
Proof.
  intros Hm Hf. rewrite trace_bind, Hm.
  destruct (outcome m); simpl; auto.
Qed.

Lemma trace_encode_level (B : Backend) (fails : oracle)
    (name name_prefix : string) (level_list : list string)
    (jl : nat * string) (st : loop_state) :
  trace (encode_level B fails name name_prefix level_list jl st) = [].
Proof.
  destruct jl as [j level], st as [fr nnl]. unfold encode_level.
  destruct (_ && _); [reflexivity|].
  apply trace_bind_nil; [apply trace_fetch | reflexivity].
Qed.

Lemma trace_encode_column (B : Backend) (fails : oracle) (name : string)
    (st : loop_state) :
  trace (encode_column B fails name st) = [].
Proof.
  unfold encode_column.
  apply trace_bind_nil; [apply trace_fetch | intros col].
  apply trace_bind_nil; [apply trace_lift | intros level_list].
  apply trace_bind_nil.
  - apply trace_for_fold_nil. intros x s. apply trace_encode_level.
  - intros [fr nnl]. apply trace_bind_nil; [apply trace_lift | reflexivity].
Qed.

Lemma trace_encoding_loop (B : Backend) (fails : oracle) (l : list string)
    (st : loop_state) :
  trace (for_fold l (encode_column B fails) st) = [].
Proof. apply trace_for_fold_nil. intros x s. apply trace_encode_column. Qed.

(** ** The claims about one column *)

(** C2: the claim is that the indicator of a level is 1 exactly on the
    rows that hold the level and -1 on every other row.  The script
    writes the text 1.0 over the matching cells and then rewrites the
    cells that differ from the number 1.0, so a cell that held the text
    1.0 from the start cannot be told from a matching cell: whatever
    the backend does cell by cell, for the level 2.0 of a column with
    levels 1.0, 2.0, 3.0 the row holding 1.0 (not the level) and the
    row holding 2.0 (the level) get the same value. *)
Theorem indicator_confuses_level_named_one (B : Backend) :
  cell_eq "2.0" (Str "1.0") = false /\
  cell_eq "2.0" (Str "2.0") = true /\
  exists x y,
    col_data (indicator B graded_column "grade_2_0" "2.0") = [x; x; y].
Proof.
  repeat split.
  exists (asnumeric_cell B
            (if ne_number B (Str "1.0") 1.0%float then Str "-1.0" else Str "1.0")).
  eexists. reflexivity.
Qed.

(** The indicator that [cbind] adds is not the column that line 181
    drops. *)
Lemma without_cbind (fr : H2OFrame) (name : string) (c : Column) :
  In name (names fr) ->
  without (cbind fr c) name =
  without fr name ++ [set_columns c (uniquify (names fr) (col_name c))].
Proof.
  intros Hin. unfold cbind. rewrite without_app. f_equal.
  apply without_absent. cbn. intros [E|[]].
  apply (uniquify_fresh (names fr) (col_name c)). now rewrite E.
Qed.

(** C5: for a categorical column with at most two levels, the body of
    the loop over [encode_list] creates exactly one indicator column:
    [categories()] returns at least one level; the frame after the
    body is the frame before it without the column, followed by one
    new column, the indicator of the first level (under the remedied
    sanitized name, as [cbind] names it); that one name is added to
    the list of new names; nothing is created for the second level. *)
Theorem binary_column_one_indicator
    (B : Backend) (fails : oracle) (name : string) (col : Column)
    (level_list : list string) (st : loop_state) :
  fails StEncode = false ->
  getitem (fst st) name = OK col ->
  categories col = OK level_list ->
  List.length level_list <= 2 ->
  exists level rest d,
    level_list = level :: rest /\
    encode_column B fails name st =
    ret (without (fst st) name ++ [d],
         snd st ++ [remedy (snd st) (join2 (sanitize name) (sanitize level))]) /\
    indicator_of B col level
      (remedy (snd st) (join2 (sanitize name) (sanitize level))) d.
Proof.
  intros Hup Hget Hcat Hlen.
  destruct (categories_nonempty col level_list Hcat)
    as (_ & _ & level & rest & ->).
  destruct (getitem_name _ _ _ Hget) as [Hin Hname].
  set (new_name := remedy (snd st) (join2 (sanitize name) (sanitize level))).
  exists level, rest,
    (set_columns (indicator B col new_name level)
       (uniquify (names (fst st)) new_name)).
  split; [reflexivity|]. split.
  - rewrite (encode_column_ok B fails name col (level :: rest) st Hup Hget Hcat).
    unfold replace_by_indicators, kept_levels.
    replace (List.length (level :: rest) <=? 2)%nat with true
      by (symmetry; apply Nat.leb_le; exact Hlen).
    rewrite Hname. cbn [firstn fold_left]. unfold add_indicator.
    fold new_name. cbn [fst snd]. rewrite without_cbind; [reflexivity|].
    rewrite <- Hname. now apply In_names.
  - split; [reflexivity | apply uniquify_renamed].
Qed.

Lemma binary_column_one_indicator_witness :
  categories status_column = OK ["late"; "paid"] /\
  exists level rest d,
    ["late"; "paid"] = level :: rest /\
    encode_column demo_backend no_failure "status" ([status_column], []) =
    ret (without [status_column] "status" ++ [d],
         [] ++ [remedy [] (join2 (sanitize "status") (sanitize level))]) /\
    indicator_of demo_backend status_column level
      (remedy [] (join2 (sanitize "status") (sanitize level))) d.
Proof.
  split; [reflexivity|].
  apply (binary_column_one_indicator demo_backend no_failure "status"
           status_column ["late"; "paid"] ([status_column], []));
    [reflexivity | reflexivity | reflexivity | simpl; lia].
Defined.

Example encode_status_column :
  encode_column demo_backend no_failure "status" ([status_column], []) =
  ret ([mkColumn "status_late" "int" []
          [Num (-1)%float; Num 1%float; Num (-1)%float]],
       ["status_late"]).
Proof. vm_compute. reflexivity. Qed.

(** ** The loop over the columns *)

Lemma indicator_of_type (B : Backend) (col : Column) (level new_name : string)
    (d : Column) :
  indicator_of B col level new_name d ->
  col_type d = "int" /\
  col_data d = col_data (indicator B col new_name level) /\
  List.length (col_data d) = List.length (col_data col).
Proof.
  intros [E _]. rewrite E. cbn. repeat split. now rewrite !length_map.
Qed.

(** What the levels of one column add to a frame with distinct column
    names: one indicator column per level, appended to the frame under
    a name that is new to the frame, and their new names, appended to
    the list and distinct from every name already there. *)
Lemma add_indicators_spec (B : Backend) (col : Column)
    (levels : list string) (st : loop_state) :
  NoDup (names (fst st)) -> NoDup (snd st) ->
  exists made,
    fold_left (add_indicator B (sanitize (col_name col)) col) levels st =
      (fst st ++ map fst made, snd st ++ map snd made) /\
    NoDup (names (fst st ++ map fst made)) /\
    NoDup (snd st ++ map snd made) /\
    Forall2 (fun level dn =>
               (exists k, snd dn =
                          appended (join2 (sanitize (col_name col))
                                      (sanitize level)) k) /\
               indicator_of B col level (snd dn) (fst dn))
      levels made.
Proof.
  revert st. induction levels as [|lv levels IH]; intros [fr nnl] Hfr Hnnl.
  - exists []. simpl. rewrite !app_nil_r. repeat split; auto.
  - simpl fold_left. cbn [fst snd] in *.
    set (new_name := remedy nnl (join2 (sanitize (col_name col)) (sanitize lv))).
    set (d := set_columns (indicator B col new_name lv)
                (uniquify (names fr) new_name)).
    assert (Est : add_indicator B (sanitize (col_name col)) col (fr, nnl) lv =
                  (fr ++ [d], nnl ++ [new_name])) by reflexivity.
    rewrite Est.
    destruct (IH (fr ++ [d], nnl ++ [new_name])) as (made & E & H1 & H2 & H3).
    { cbn [fst]. rewrite names_app. apply NoDup_snoc; [exact Hfr|].
      apply uniquify_fresh. }
    { cbn [snd]. apply NoDup_snoc; [exact Hnnl | apply remedy_fresh]. }
    cbn [fst snd] in *.
    exists ((d, new_name) :: made). cbn [map fst snd].
    rewrite <- !app_assoc in *. cbn [app] in *.
    split; [exact E|]. split; [exact H1|]. split; [exact H2|].
    constructor; [|exact H3]. cbn [fst snd]. split.
    + destruct (remedy_least nnl (join2 (sanitize (col_name col)) (sanitize lv)))
        as (k & Ek & _).
      exists k. exact Ek.
    + split; [reflexivity | apply uniquify_renamed].
Qed.

Lemma Forall2_In_r {A C} (R : A -> C -> Prop) (l : list A) (l' : list C)
    (y : C) :
  Forall2 R l l' -> In y l' -> exists x, In x l /\ R x y.
Proof.
  induction 1 as [|a b l l' Hab _ IH]; intros Hin; [contradiction|].
  destruct Hin as [<-|Hin].
  - exists a. split; [now left | exact Hab].
  - destruct (IH Hin) as (x & Hx & Hr). exists x. split; [now right | exact Hr].
Qed.

Lemma Forall2_In_l {A C} (R : A -> C -> Prop) (l : list A) (l' : list C)
    (x : A) :
  Forall2 R l l' -> In x l -> exists y, In y l' /\ R x y.
Proof.
  induction 1 as [|a b l l' Hab _ IH]; intros Hin; [contradiction|].
  destruct Hin as [<-|Hin].
  - exists b. split; [now left | exact Hab].
  - destruct (IH Hin) as (y & Hy & Hr). exists y. split; [now right | exact Hr].
Qed.

(** The state before the loop. *)
Lemma encoded_state_start (B : Backend) (fr0 : H2OFrame) :
  NoDup (names fr0) -> encoded_state B fr0 [] (fr0, []) [].
Proof.
  intros Hnd. unfold encoded_state. cbn [fst snd map].
  rewrite without_list_nil, app_nil_r.
  split; [reflexivity|]. split; [reflexivity|]. split; [exact Hnd|].
  split; [constructor|]. split; [constructor|].
  intros col lv level _ [].
Qed.

(** One pass through the body of the loop over [encode_list], for the
    name of a categorical column of the frame that is not yet
    encoded. *)
Lemma encoded_state_step (B : Backend) (fails : oracle) (fr0 : H2OFrame)
    (done : list string) (st : loop_state) (made : list (Column * string))
    (col : Column) (level_list : list string) :
  fails StEncode = false ->
  NoDup (names fr0) ->
  encoded_state B fr0 done st made ->
  In col fr0 -> ~ In (col_name col) done ->
  categories col = OK level_list ->
  exists st' made',
    encode_column B fails (col_name col) st = ret st' /\
    st' = replace_by_indicators B col level_list st /\
    encoded_state B fr0 (done ++ [col_name col]) st' made'.
Proof.
  intros Hup Hnd0 (Efr & Ennl & Hfr & Hnnl & Hmade & Hall) Hcol Hnot Hcat.
  assert (Hin : In col (fst st)).
  { rewrite Efr. apply in_or_app. left. apply In_without_list. auto. }
  pose proof (getitem_In (fst st) col Hfr Hin) as Hget.
  destruct (add_indicators_spec B col (kept_levels level_list) st Hfr Hnnl)
    as (more & Efold & Hfr' & Hnnl' & Hmore).
  exists (replace_by_indicators B col level_list st), (made ++ more).
  split; [now apply encode_column_ok|]. split; [reflexivity|].
  unfold replace_by_indicators. rewrite Efold. cbn [fst snd].
  assert (Hfresh : ~ In (col_name col) (names (map fst made ++ map fst more))).
  { intros H. rewrite Efr, <- app_assoc, names_app in Hfr'.
    apply (NoDup_app_disjoint _ _ (col_name col) Hfr'); [|exact H].
    apply In_names, In_without_list. auto. }
  split; [|split; [|split; [|split; [|split]]]].
  - rewrite Efr, <- app_assoc, without_app, without_without_list.
    rewrite (without_absent _ _ Hfresh), map_app. reflexivity.
  - rewrite Ennl, map_app. reflexivity.
  - apply NoDup_names_filter. exact Hfr'.
  - exact Hnnl'.
  - apply Forall_app. split.
    + eapply Forall_impl; [|exact Hmade].
      intros dn (c & lv & level & k & H1 & H2 & H3).
      exists c, lv, level, k. split; [exact H1|].
      split; [apply in_or_app; now left | exact H3].
    + apply Forall_forall. intros dn Hdn.
      destruct (Forall2_In_r _ _ _ dn Hmore Hdn) as (level & Hlevel & [k Hk] & Hind).
      exists col, level_list, level, k.
      split; [exact Hcol|]. split; [apply in_or_app; right; now left|].
      auto.
  - intros c lv level Hc Hdone Hlv Hlevel.
    apply in_app_or in Hdone as [Hdone|[Ename|[]]].
    + destruct (Hall c lv level Hc Hdone Hlv Hlevel) as (dn & Hdn & Hind).
      exists dn. split; [apply in_or_app; now left | exact Hind].
    + assert (c = col) by (apply (same_name_same_column fr0); auto).
      subst c. rewrite Hcat in Hlv. injection Hlv as <-.
      destruct (Forall2_In_l _ _ _ level Hmore Hlevel) as (dn & Hdn & _ & Hind).
      exists dn. split; [apply in_or_app; now right | exact Hind].
Qed.

(** The loop over a list of distinct names of categorical columns of
    the frame, from a state in which none of them is encoded yet. *)
Lemma encoding_loop_from (B : Backend) (fails : oracle) (fr0 : H2OFrame) :
  fails StEncode = false ->
  NoDup (names fr0) ->
  forall (l done : list string) (st : loop_state)
         (made : list (Column * string)),
    NoDup (done ++ l) ->
    (forall x, In x l ->
               exists col level_list,
                 In col fr0 /\ col_name col = x /\
                 categories col = OK level_list) ->
    encoded_state B fr0 done st made ->
    exists st' made',
      for_fold l (encode_column B fails) st = ret st' /\
      encoded_state B fr0 (done ++ l) st' made'.
Proof.
  intros Hup Hnd0 l. induction l as [|x l IH]; intros done st made Hnd Hl Hst.
  - exists st, made. rewrite app_nil_r. split; [reflexivity | exact Hst].
  - destruct (Hl x) as (col & lv & Hcol & <- & Hcat); [now left|].
    destruct (encoded_state_step B fails fr0 done st made col lv Hup Hnd0 Hst
                Hcol) as (st1 & made1 & E1 & _ & Hst1).
    { intros H. apply (NoDup_app_disjoint _ _ (col_name col) Hnd H). now left. }
    { exact Hcat. }
    destruct (IH (done ++ [col_name col]) st1 made1) as (st2 & made2 & E2 & Hst2).
    { now rewrite <- app_assoc. }
    { intros y Hy. apply Hl. now right. }
    { exact Hst1. }
    exists st2, made2. split.
    + simpl. now rewrite E1, bind_ret.
    + now rewrite <- app_assoc in Hst2.
Qed.

Lemma encoding_loop_ok (B : Backend) (fails : oracle) (fr0 : H2OFrame)
    (l : list string) :
  fails StEncode = false ->
  NoDup (names fr0) ->
  NoDup l ->
  (forall x, In x l ->
             exists col level_list,
               In col fr0 /\ col_name col = x /\
               categories col = OK level_list) ->
  exists st made,
    for_fold l (encode_column B fails) (fr0, []) = ret st /\
    encoded_state B fr0 l st made.
Proof.
  intros Hup Hnd0 Hl Hcols.
  apply (encoding_loop_from B fails fr0 Hup Hnd0 l [] (fr0, []) []);
    [exact Hl | exact Hcols | now apply encoded_state_start].
Qed.

(** ** Which columns are encoded *)

Lemma filter_raising_all {A} (p : A -> result bool) (l : list A) :
  (forall x, In x l -> exists b, p x = OK b) ->
  filter_raising p l =
  OK (filter (fun x => match p x with OK b => b | Raise _ => false end) l).
Proof.
  induction l as [|x l IH]; intros H; [reflexivity|].
  simpl. destruct (H x) as [b Hb]; [now left|]. rewrite Hb.
  rewrite IH; [|intros y Hy; apply H; now right].
  now destruct b.
Qed.

Lemma filter_raising_inv {A} (p : A -> result bool) (l r : list A) :
  filter_raising p l = OK r -> forall x, In x l -> exists b, p x = OK b.
Proof.
  revert r. induction l as [|y l IH]; intros r H x Hx; [contradiction|].
  simpl in H. destruct (p y) as [b|e] eqn:Ey; [|discriminate].
  destruct (filter_raising p l) as [r'|e] eqn:El; [|discriminate].
  destruct Hx as [<-|Hx]; [eauto | now apply (IH r')].
Qed.

Lemma few_levels_In (fr : H2OFrame) (c : Column) :
  NoDup (names fr) -> In c fr ->
  few_levels fr (col_name c) =
  match categories c with
  | OK level_list => OK (List.length level_list <? NUM_LEVELS_THRESHOLD)%nat
  | Raise e => Raise e
  end.
Proof. intros Hnd Hc. unfold few_levels. now rewrite (getitem_In fr c Hnd Hc). Qed.

Lemma in_types_items (B : Backend) (fr : H2OFrame) (nt : string * string) :
  In nt (types_items B fr) <->
  exists c, In c fr /\ nt = (col_name c, col_type c).
Proof.
  unfold types_items. split.
  - intros H. apply (Permutation_in _ (dict_order_perm B _)) in H.
    apply in_map_iff in H as (c & E & Hc). eauto.
  - intros (c & Hc & ->).
    apply (Permutation_in _ (Permutation_sym (dict_order_perm B _))).
    apply in_map_iff. eauto.
Qed.

Lemma map_fst_types_items (B : Backend) (fr : H2OFrame) :
  Permutation (map fst (types_items B fr)) (names fr).
Proof.
  unfold types_items, names.
  rewrite (Permutation_map fst (dict_order_perm B _)), map_map.
  reflexivity.
Qed.

Lemma NoDup_map_filter {A C} (f : A -> C) (p : A -> bool) (l : list A) :
  NoDup (map f l) -> NoDup (map f (filter p l)).
Proof.
  induction l as [|x l IH]; simpl; intros H; [constructor|].
  inversion H as [|? ? Hx Hl]; subst.
  destruct (p x); simpl; [constructor|]; auto.
  intros Hin. apply Hx. apply in_map_iff in Hin as (y & E & Hy).
  apply filter_In in Hy as [Hy _]. apply in_map_iff. eauto.
Qed.

Lemma NoDup_types_items (B : Backend) (fr : H2OFrame) :
  NoDup (names fr) -> NoDup (map fst (types_items B fr)).
Proof.
  intros H.
  apply (Permutation_NoDup (Permutation_sym (map_fst_types_items B fr)) H).
Qed.

Lemma in_try_name_list (B : Backend) (fr : H2OFrame) (n : string) :
  In n (try_name_list B fr) <->
  exists c, In c fr /\ col_name c = n /\
            ~ In (col_type c) ["unknown"; "uuid"; "time"; "real"; "int"].
Proof.
  unfold try_name_list. rewrite in_map_iff. split.
  - intros ([n' t] & E & H). cbn [fst] in E. subst n'.
    apply filter_In in H as [H Ht]. cbn [snd] in Ht.
    apply in_types_items in H as (c & Hc & E). injection E as -> ->.
    exists c. split; [exact Hc|]. split; [reflexivity|].
    now apply mem_not_In, negb_true_iff.
  - intros (c & Hc & <- & Ht). exists (col_name c, col_type c).
    split; [reflexivity|]. apply filter_In. split.
    + apply in_types_items. eauto.
    + cbn [snd]. now apply negb_true_iff, mem_not_In.
Qed.

Lemma NoDup_try_name_list (B : Backend) (fr : H2OFrame) :
  NoDup (names fr) -> NoDup (try_name_list B fr).
Proof.
  intros H. unfold try_name_list. apply NoDup_map_filter.
  now apply NoDup_types_items.
Qed.

Lemma NoDup_filter {A} (p : A -> bool) (l : list A) :
  NoDup l -> NoDup (filter p l).
Proof.
  induction l as [|x l IH]; simpl; intros H; [constructor|].
  inversion H as [|? ? Hx Hl]; subst.
  destruct (p x); [constructor|]; auto.
  intros Hin. apply Hx. now apply filter_In in Hin as [Hin _].
Qed.

Lemma encodable_spec (c : Column) :
  encodable c = true <->
  ~ In (col_type c) ["unknown"; "uuid"; "time"; "real"; "int"] /\
  exists level_list,
    categories c = OK level_list /\
    List.length level_list < NUM_LEVELS_THRESHOLD.
Proof.
  unfold encodable. rewrite andb_true_iff, negb_true_iff, mem_not_In.
  destruct (categories c) as [lv|e].
  - rewrite Nat.ltb_lt. split.
    + intros [H1 H2]. split; [exact H1|]. now exists lv.
    + intros [H1 (lv' & E & H2)]. injection E as <-. auto.
  - split.
    + intros [_ H]. discriminate.
    + intros [_ (lv & E & _)]. discriminate.
Qed.

(** When line 147 does not raise: every candidate is categorical, and
    [encode_list] holds, once each, the names of the columns that pass
    the two tests. *)
Lemma encode_list_inv (B : Backend) (fr : H2OFrame) (enc : list string) :
  NoDup (names fr) ->
  encode_list B fr = OK enc ->
  candidates_categorical fr /\
  NoDup enc /\
  (forall c, In c fr -> (In (col_name c) enc <-> encodable c = true)) /\
  (forall x, In x enc ->
             exists col level_list,
               In col fr /\ col_name col = x /\
               categories col = OK level_list).
Proof.
  intros Hnd Henc. unfold encode_list in Henc.
  pose proof (filter_raising_inv _ _ _ Henc) as Hall.
  assert (Hcat : candidates_categorical fr).
  { intros c Hc Ht.
    destruct (Hall (col_name c)) as [b Hb].
    { apply in_try_name_list. eauto. }
    rewrite (few_levels_In fr c Hnd Hc) in Hb.
    destruct (categories c) as [lv|e]; [eauto | discriminate]. }
  rewrite (filter_raising_all _ _ Hall) in Henc. injection Henc as <-.
  assert (Hmem : forall c, In c fr ->
            (In (col_name c)
               (filter (fun x => match few_levels fr x with
                                 | OK b => b
                                 | Raise _ => false
                                 end) (try_name_list B fr)) <->
             encodable c = true)).
  { intros c Hc. rewrite filter_In, in_try_name_list.
    rewrite (few_levels_In fr c Hnd Hc), encodable_spec.
    split.
    - intros [(c' & Hc' & E & Ht) Hlv].
      assert (c' = c) by (apply (same_name_same_column fr); auto). subst c'.
      split; [exact Ht|].
      destruct (categories c) as [lv|e]; [|discriminate].
      exists lv. split; [reflexivity | now apply Nat.ltb_lt].
    - intros [Ht (lv & E & Hlv)]. split; [eauto|].
      rewrite E. now apply Nat.ltb_lt. }
  split; [exact Hcat|]. split; [|split; [exact Hmem|]].
  - apply NoDup_filter. now apply NoDup_try_name_list.
  - intros x Hx. apply filter_In in Hx as [Hx _].
    apply in_try_name_list in Hx as (c & Hc & E & Ht).
    destruct (Hcat c Hc Ht) as [lv Hlv]. eauto.
Qed.


Lemma NoDup_names_demo_frame : NoDup (names demo_frame).
Proof.
  repeat (constructor; [simpl; intuition discriminate|]). constructor.
Defined.




Example encoding_demo_frame_names :
  for_fold ["status"; "grade"] (encode_column demo_backend no_failure)
    (demo_frame, []) =
  ret ([ mkColumn "id" "int" [] [Num 1; Num 2; Num 3]%float;
         mkColumn "amount" "real" [] [Num 10; NA; Num 30]%float;
         mkColumn "status_late" "int" [] [Num (-1); Num 1; Num (-1)]%float;
         mkColumn "grade_A_B" "int" [] [Num 1; Num (-1); Num (-1)]%float;
         mkColumn "grade_A_B_" "int" [] [Num (-1); Num (-1); Num 1]%float;
         mkColumn "grade_C" "int" [] [Num (-1); Num 1; Num (-1)]%float ],
       ["status_late"; "grade_A_B"; "grade_A_B_"; "grade_C"]).
Proof. vm_compute. reflexivity. Qed.

(* ================================================================== *)
(** * main                                                             *)
(* ================================================================== *)

Lemma select_ok (fr : H2OFrame) (l : list string) :
  incl l (names fr) ->
  exists sel, select fr l = OK sel /\ names sel = l /\ incl sel fr.
Proof.
  induction l as [|n l IH]; intros Hl.
  - exists []. repeat split. intros x [].
  - destruct (getitem_present fr n) as [c Hc]; [apply Hl; now left|].
    destruct IH as (sel & E & Hn & Hs); [intros x Hx; apply Hl; now right|].
    destruct (getitem_name _ _ _ Hc) as [Hin Hname].
    exists (c :: sel). simpl. rewrite Hc, E, Hname, Hn. repeat split.
    intros x [<-|Hx]; auto.
Qed.

Lemma names_impute_selection (B : Backend) (fr : H2OFrame) (l : list string) :
  names (impute_selection B fr l) = names fr.
Proof.
  unfold impute_selection, names. destruct (slice_shares B); [|reflexivity].
  rewrite map_map. apply map_ext. intros c. now destruct (mem (col_name c) l).
Qed.

(** A name is in [input_list] exactly for a column of type real or
    int. *)
Lemma in_input_list (B : Backend) (fr : H2OFrame) (n : string) :
  In n (input_list B fr) <->
  exists c, In c fr /\ col_name c = n /\ In (col_type c) ["real"; "int"].
Proof.
  unfold input_list. rewrite in_map_iff. split.
  - intros ([n' t] & E & H). cbn [fst] in E. subst n'.
    apply filter_In in H as [H Ht]. cbn [snd] in Ht.
    apply in_types_items in H as (c & Hc & E). injection E as -> ->.
    exists c. split; [exact Hc|]. split; [reflexivity | now apply mem_In].
  - intros (c & Hc & <- & Ht). exists (col_name c, col_type c).
    split; [reflexivity|]. apply filter_In. split.
    + apply in_types_items. eauto.
    + cbn [snd]. now apply mem_In.
Qed.

Lemma input_list_incl (B : Backend) (fr : H2OFrame) :
  incl (input_list B fr) (names fr).
Proof.
  intros n Hn. apply in_input_list in Hn as (c & Hc & <- & _).
  now apply In_names.
Qed.



(** [cor()] on two columns or more. *)
Lemma cor_frame (B : Backend) (fr : H2OFrame) :
  2 <= List.length fr ->
  exists df, cor B fr = OK (CorFrame df) /\ square df /\ columns df = names fr.
Proof.
  intros Hlen. destruct fr as [|c1 [|c2 fr]]; simpl in Hlen; try lia.
  eexists. split; [reflexivity|].
  unfold square, rectangular, shape0, shape1, names. cbn [columns values].
  repeat split.
  - apply Forall_forall. intros row Hrow.
    apply in_map_iff in Hrow as (c & <- & _). now rewrite !length_map.
  - now rewrite !length_map.
Qed.

Lemma cor_frame_inv (B : Backend) (fr : H2OFrame) (df : DataFrame) :
  cor B fr = OK (CorFrame df) ->
  2 <= List.length fr /\ square df /\ columns df = names fr.
Proof.
  intros H.
  assert (Hlen : 2 <= List.length fr).
  { destruct fr as [|c1 [|c2 fr]]; try discriminate. simpl. lia. }
  destruct (cor_frame B fr Hlen) as (df' & E & Hsq & Hcols).
  rewrite E in H. injection H as <-. auto.
Qed.


(** The writer on a square frame: it raises only when the file cannot
    be opened. *)
Lemma write_gdf_ok (fails : oracle) (df : DataFrame) (path : string)
    (thr : float) :
  fails StOpen = false -> square df ->
  outcome (write_gdf fails df path thr) = OK tt.
Proof.
  intros Hopen [Hrect Hsq].
  destruct (write_node_labels_square df Hsq) as [Hn _].
  destruct (write_edge_weights_rectangular df thr Hrect) as [He _].
  unfold write_gdf, with_open, external, print, write, finally.
  rewrite Hopen.
  destruct (write_node_labels df) as [tn rn];
    destruct (write_edge_weights df thr) as [te re].
  simpl in Hn, He. subst rn re. reflexivity.
Qed.

(** ** Where the backend is shut down *)

Lemma quiet_ret {A} (a : A) : quiet (ret a).
Proof. intros []. Qed.

Lemma quiet_lift {A} (r : result A) : quiet (lift r).
Proof. intros []. Qed.

Lemma quiet_external (fails : oracle) (st : stage) : quiet (external fails st).
Proof. unfold quiet, external. destruct (fails st); intros []. Qed.

Lemma quiet_emit (e : event) : e <> EvShutdown -> quiet (emit e).
Proof. intros H [E|[]]. now apply H. Qed.

Lemma quiet_print (s : string) : quiet (print s).
Proof. apply quiet_emit. discriminate. Qed.

Lemma quiet_write (l : gdf_line) : quiet (write l).
Proof. apply quiet_emit. discriminate. Qed.

Lemma quiet_bind {A B} (m : M A) (f : A -> M B) :
  quiet m -> (forall a, quiet (f a)) -> quiet (bind m f).
Proof.
  unfold quiet. intros Hm Hf H. apply in_trace_bind in H as [H|(a & _ & H)].
  - now apply Hm.
  - now apply (Hf a).
Qed.

Lemma quiet_finally {A} (body : M A) (cleanup : M unit) :
  quiet body -> quiet cleanup -> quiet (finally body cleanup).
Proof.
  unfold quiet, finally. destruct body as [t r], cleanup as [t' [[]|e]]; simpl;
    intros H1 H2 H; apply in_app_or in H as [H|H]; auto.
Qed.

Lemma quiet_for_each {A} (l : list A) (body : A -> M unit) :
  (forall x, quiet (body x)) -> quiet (for_each l body).
Proof.
  intros Hb H. apply in_trace_for_each in H as (x & _ & H). now apply (Hb x).
Qed.

Lemma quiet_for_fold {A S} (l : list A) (body : A -> S -> M S) (st : S) :
  (forall x s, quiet (body x s)) -> quiet (for_fold l body st).
Proof.
  intros Hb. revert st. induction l as [|x l IH]; intros st; [apply quiet_ret|].
  simpl. apply quiet_bind; [apply Hb | exact IH].
Qed.

Ltac quiet_step :=
  first [ apply quiet_ret | apply quiet_lift | apply quiet_external
        | apply quiet_print | apply quiet_write
        | apply quiet_emit; discriminate
        | apply quiet_bind; [|intros ?]
        | apply quiet_finally
        | apply quiet_for_each; intros ?
        | apply quiet_for_fold; intros ? ? ].

Lemma quiet_write_gdf (fails : oracle) (df : DataFrame) (path : string)
    (thr : float) :
  quiet (write_gdf fails df path thr).
Proof.
  unfold write_gdf, with_open, write_node_labels, write_edge_weights.
  repeat quiet_step.
  unfold write_edge. destruct (Nat.ltb _ _); repeat quiet_step.
  destruct (float_gt _ _); repeat quiet_step.
Qed.

Lemma quiet_encode_column (B : Backend) (fails : oracle) (name : string)
    (st : loop_state) :
  quiet (encode_column B fails name st).
Proof.
  unfold quiet. rewrite trace_encode_column. intros [].
Qed.

Lemma shuts_down_bind {A} (m : M A) (f : A -> M unit) :
  quiet m -> (forall a, shuts_down_iff_returns (f a)) ->
  shuts_down_iff_returns (bind m f).
Proof.
  unfold quiet, shuts_down_iff_returns. intros Hm Hf.
  rewrite trace_bind, outcome_bind.
  destruct (outcome m) as [a|e].
  - destruct (Hf a) as [H1 H2]. split.
    + rewrite <- H1. split; [|intros H; apply in_or_app; now right].
      intros H. apply in_app_or in H as [H|H]; [contradiction | exact H].
    + intros H. destruct (H2 H) as [t ->]. exists (trace m ++ t).
      now rewrite app_assoc.
  - rewrite app_nil_r. split; [|discriminate].
    split; [contradiction | discriminate].
Qed.

Lemma shuts_down_emit : shuts_down_iff_returns (emit EvShutdown).
Proof.
  split; [split; [reflexivity | now left] | intros _; now exists []].
Qed.

(** C4 as stated fails: when [h2o.import_file] raises after a
    successful [h2o.init], the run ends with the backend started and
    never shut down. *)
Lemma import_error_skips_shutdown :
  main demo_backend import_fails demo_frame =
  ([EvInit], Raise (BackendError StImport)).
Proof. reflexivity. Qed.

(** C4, amended: the backend is shut down exactly on the runs of [main]
    in which no step raises, and then as the last action; on a run in
    which loading, encoding, correlation or writing raises, the error
    leaves [main] and the shutdown is not reached. *)
Theorem shutdown_only_when_nothing_raises
    (B : Backend) (fails : oracle) (parsed : H2OFrame) :
  (In EvShutdown (trace (main B fails parsed)) <->
   outcome (main B fails parsed) = OK tt) /\
  (outcome (main B fails parsed) = OK tt ->
   exists t, trace (main B fails parsed) = t ++ [EvShutdown]).
Proof.
  change (shuts_down_iff_returns (main B fails parsed)).
  unfold main.
  repeat first
    [ apply shuts_down_emit
    | apply shuts_down_bind;
      [ first [ apply quiet_write_gdf
              | apply quiet_for_fold; intros ? ?; apply quiet_encode_column
              | repeat quiet_step ]
      | intros ? ] ].
Qed.

(** ** The runs of main in which no external call fails *)

Lemma written_write_gdf_square (fails : oracle) (df : DataFrame)
    (path : string) (thr : float) :
  fails StOpen = false -> square df ->
  written (trace (write_gdf fails df path thr)) =
  NodeDef :: map node_line_of (enumerate (columns df)) ++
  EdgeDef :: written (trace (write_edge_weights df thr)).
Proof.
  intros Hopen [_ Hsq].
  destruct (write_node_labels_square df Hsq) as [Hok Hw].
  now rewrite written_write_gdf, Hopen, Hok, Hw.
Qed.

Lemma run_eta {A} (m : M A) : m = (trace m, outcome m).
Proof. now destruct m. Qed.

Lemma select_input_list (B : Backend) (fr : H2OFrame) :
  exists sel,
    select (impute_selection B fr (input_list B fr)) (input_list B fr) =
      OK sel /\
    names sel = input_list B fr.
Proof.
  destruct (select_ok (impute_selection B fr (input_list B fr))
              (input_list B fr)) as (sel & E & Hn & _).
  - rewrite names_impute_selection. apply input_list_incl.
  - eauto.
Qed.

Lemma trace_ret {A} (a : A) : trace (ret a) = [].
Proof. reflexivity. Qed.

Lemma outcome_ret {A} (a : A) : outcome (ret a) = OK a.
Proof. reflexivity. Qed.

Lemma trace_emit (e : event) : trace (emit e) = [e].
Proof. reflexivity. Qed.

Lemma outcome_emit (e : event) : outcome (emit e) = OK tt.
Proof. reflexivity. Qed.

Lemma trace_print (s : string) : trace (print s) = [EvPrint s].
Proof. reflexivity. Qed.

Lemma outcome_print (s : string) : outcome (print s) = OK tt.
Proof. reflexivity. Qed.

Lemma outcome_lift {A} (r : result A) : outcome (lift r) = r.
Proof. reflexivity. Qed.

Create Rewrite HintDb run.

#[local] Hint Rewrite @trace_bind @outcome_bind @trace_ret @outcome_ret
  trace_emit outcome_emit trace_print outcome_print @trace_lift @outcome_lift
  : run.

(** Stepping through a run whose external calls do not fail. *)
Ltac run_steps := repeat (autorewrite with run; cbv beta iota).

(** A run that ends before the encoding loop. *)
Lemma main_no_frame (B : Backend) (fails : oracle) (parsed : H2OFrame)
    (e : exn) :
  (forall s, fails s = false) ->
  drop_list parsed DROP_LIST = Raise e \/
  (exists fr, drop_list parsed DROP_LIST = OK fr /\
              encode_list B fr = Raise e) ->
  main B fails parsed = ([EvInit], Raise e).
Proof.
  intros Hup H. rewrite (run_eta (main B fails parsed)).
  unfold main, external. rewrite !Hup. run_steps.
  destruct H as [H|(fr & H & H')].
  - rewrite H. reflexivity.
  - rewrite H. run_steps. rewrite H'. reflexivity.
Qed.

(** A run in which the encoding loop raises. *)
Lemma main_loop_raises (B : Backend) (fails : oracle) (parsed fr : H2OFrame)
    (enc : list string) (e : exn) :
  (forall s, fails s = false) ->
  drop_list parsed DROP_LIST = OK fr ->
  encode_list B fr = OK enc ->
  outcome (for_fold enc (encode_column B fails) (fr, [])) = Raise e ->
  main B fails parsed = ([EvInit; EvPrint "Encoding enums ..."], Raise e).
Proof.
  intros Hup Hdrop Henc Hloop.
  rewrite (run_eta (main B fails parsed)).
  unfold main, external. rewrite !Hup. run_steps.
  rewrite Hdrop. run_steps. rewrite Henc. run_steps.
  rewrite trace_encoding_loop, Hloop. reflexivity.
Qed.

(** A run in which the encoding loop returns: it goes on to the
    correlation, and what follows depends on what [cor()] gives. *)
Lemma main_run (B : Backend) (fails : oracle) (parsed fr : H2OFrame)
    (enc : list string) (st : loop_state) :
  (forall s, fails s = false) ->
  drop_list parsed DROP_LIST = OK fr ->
  encode_list B fr = OK enc ->
  for_fold enc (encode_column B fails) (fr, []) = ret st ->
  exists sel,
    select (impute_selection B (fst st) (input_list B (fst st)))
      (input_list B (fst st)) = OK sel /\
    names sel = input_list B (fst st) /\
    main B fails parsed =
    match cor B sel with
    | Raise e =>
        ([EvInit; EvPrint "Encoding enums ..."; EvPrint "Done.";
          EvPrint "Calculating Pearson correlations ..."], Raise e)
    | OK (CorNumber _) =>
        ([EvInit; EvPrint "Encoding enums ..."; EvPrint "Done.";
          EvPrint "Calculating Pearson correlations ..."; EvPrint "Done."],
         Raise AttributeError)
    | OK (CorFrame df) =>
        ([EvInit; EvPrint "Encoding enums ..."; EvPrint "Done.";
          EvPrint "Calculating Pearson correlations ..."; EvPrint "Done."] ++
         trace (write_gdf fails df OUT_FILE_PATH_STRING CORR_THRESHOLD) ++
         [EvShutdown], OK tt)
    end.
Proof.
  intros Hup Hdrop Henc Hloop.
  destruct (select_input_list B (fst st)) as (sel & Esel & Hnames).
  exists sel. split; [exact Esel|]. split; [exact Hnames|].
  rewrite (run_eta (main B fails parsed)).
  unfold main, external. rewrite !Hup. run_steps.
  rewrite Hdrop. run_steps. rewrite Henc. run_steps.
  rewrite Hloop. run_steps. rewrite Esel. run_steps.
  destruct (cor B sel) as [[x|df]|e] eqn:Ecor; run_steps.
  - reflexivity.
  - destruct (cor_frame_inv B sel df Ecor) as (_ & Hsq & _).
    cbn [as_data_frame]. run_steps.
    rewrite (write_gdf_ok fails df _ _ (Hup StOpen) Hsq). run_steps.
    reflexivity.
  - reflexivity.
Qed.

Lemma in_node_lines (ls : list gdf_line) (i : nat) (n : string) :
  In (i, n) (node_lines ls) <-> In (NodeLine i n) ls.
Proof.
  induction ls as [|x ls IH]; simpl; [tauto|].
  destruct x; simpl; rewrite IH; split; intros H;
    try (right; exact H); try (destruct H as [H|H]; [discriminate|exact H]).
  - destruct H as [H|H]; [left; now injection H as -> -> | now right].
  - destruct H as [H|H]; [left; now injection H as -> -> | now right].
Qed.

Lemma in_enumerate_snd {A} (l : list A) (i : nat) (x : A) :
  In (i, x) (enumerate l) -> In x l.
Proof.
  intros H. rewrite <- (map_snd_enumerate l).
  apply in_map_iff. exists (i, x). auto.
Qed.

Lemma in_enumerate_lt {A} (l : list A) (i : nat) :
  i < List.length l -> exists x, In (i, x) (enumerate l).
Proof.
  unfold enumerate.
  assert (H : forall a, i < List.length l ->
            exists x, In (a + i, x) (combine (seq a (List.length l)) l)).
  { revert i. induction l as [|y l IH]; intros i a Hi; simpl in Hi; [lia|].
    destruct i as [|i].
    - exists y. left. f_equal. lia.
    - destruct (IH i (S a)) as [x Hx]; [lia|].
      exists x. right. simpl. replace (a + S i) with (S a + i) by lia. exact Hx. }
  intros Hi. destruct (H 0 Hi) as [x Hx]. eauto.
Qed.

(** What a run in which the encoding loop returns writes: nothing when
    [cor()] fails or gives a number; else the nodes are the names of
    [input_list], numbered in its order, and the edges are those of the
    correlation matrix. *)
Lemma main_written (B : Backend) (fails : oracle) (parsed fr : H2OFrame)
    (enc : list string) (st : loop_state) :
  (forall s, fails s = false) ->
  drop_list parsed DROP_LIST = OK fr ->
  encode_list B fr = OK enc ->
  for_fold enc (encode_column B fails) (fr, []) = ret st ->
  written (trace (main B fails parsed)) = [] \/
  exists sel df,
    select (impute_selection B (fst st) (input_list B (fst st)))
      (input_list B (fst st)) = OK sel /\
    cor B sel = OK (CorFrame df) /\
    shape0 df = List.length (input_list B (fst st)) /\
    shape1 df = List.length (input_list B (fst st)) /\
    outcome (main B fails parsed) = OK tt /\
    written (trace (main B fails parsed)) =
    NodeDef :: map node_line_of (enumerate (input_list B (fst st))) ++
    EdgeDef :: written (trace (write_edge_weights df CORR_THRESHOLD)).
Proof.
  intros Hup Hdrop Henc Hloop.
  destruct (main_run B fails parsed fr enc st Hup Hdrop Henc Hloop)
    as (sel & Esel & Hnames & Emain).
  destruct (cor B sel) as [[x|df]|e] eqn:Ecor;
    [left; rewrite Emain; reflexivity | | left; rewrite Emain; reflexivity].
  right. exists sel, df.
  destruct (cor_frame_inv B sel df Ecor) as (_ & Hsq & Hcols).
  split; [exact Esel|]. split; [exact Ecor|].
  assert (Hs1 : shape1 df = List.length (input_list B (fst st))).
  { unfold shape1. now rewrite Hcols, Hnames. }
  split; [destruct Hsq as [_ Hsq]; now rewrite Hsq|]. split; [exact Hs1|].
  rewrite Emain. split; [reflexivity|].
  unfold trace at 1. cbn [fst app written].
  rewrite written_app. cbn [written]. rewrite app_nil_r.
  rewrite (written_write_gdf_square _ _ _ _ (Hup StOpen) Hsq), Hcols, Hnames.
  reflexivity.
Qed.

(** The nodes and the edges of such a run. *)
Lemma main_lines (B : Backend) (fails : oracle) (parsed fr : H2OFrame)
    (enc : list string) (st : loop_state) :
  (forall s, fails s = false) ->
  drop_list parsed DROP_LIST = OK fr ->
  encode_list B fr = OK enc ->
  for_fold enc (encode_column B fails) (fr, []) = ret st ->
  (forall i n,
      In (NodeLine i n) (written (trace (main B fails parsed))) ->
      In (i, n) (enumerate (input_list B (fst st))) /\
      outcome (main B fails parsed) = OK tt) /\
  (forall i n,
      outcome (main B fails parsed) = OK tt ->
      In (i, n) (enumerate (input_list B (fst st))) ->
      In (NodeLine i n) (written (trace (main B fails parsed)))) /\
  (forall i j w,
      In (EdgeLine i j w) (written (trace (main B fails parsed))) ->
      j < i < List.length (input_list B (fst st))).
Proof.
  intros Hup Hdrop Henc Hloop.
  destruct (main_written B fails parsed fr enc st Hup Hdrop Henc Hloop)
    as [E|(sel & df & _ & Ecor & Hs0 & Hs1 & Hok & E)]; rewrite E.
  - split; [intros i n []|]. split; [|intros i j w []].
    intros i n Hok _.
    destruct (main_run B fails parsed fr enc st Hup Hdrop Henc Hloop)
      as (sel & _ & _ & Emain).
    rewrite Emain in Hok, E.
    destruct (cor B sel) as [[x|df]|e] eqn:Ecor; try discriminate.
    destruct (cor_frame_inv B sel df Ecor) as (_ & Hsq & _).
    unfold trace at 1 in E. cbn [fst app written] in E.
    rewrite written_app in E. cbn [written] in E.
    rewrite (written_write_gdf_square _ _ _ _ (Hup StOpen) Hsq) in E.
    discriminate.
  - assert (Hnodes : forall i n,
               In (NodeLine i n)
                 (NodeDef :: map node_line_of
                               (enumerate (input_list B (fst st))) ++
                  EdgeDef :: written (trace (write_edge_weights df
                                               CORR_THRESHOLD))) <->
               In (i, n) (enumerate (input_list B (fst st)))).
    { intros i n. rewrite <- in_node_lines. cbn [node_lines].
      rewrite node_lines_app. cbn [node_lines].
      rewrite node_lines_write_edge_weights, app_nil_r, node_lines_node_line_of.
      reflexivity. }
    split; [|split].
    + intros i n H. split; [now apply Hnodes | exact Hok].
    + intros i n _ H. now apply Hnodes.
    + intros i j w H. destruct H as [H|H]; [discriminate|].
      apply in_app_or in H as [H|[H|H]]; [| discriminate |].
      { apply in_map_iff in H as ([a b] & E' & _). discriminate. }
      apply in_write_edge_weights in H as (Hi & Hj & Hji & _).
      rewrite Hs0 in Hi. lia.
Qed.






Example main_wide_frame_nodes :
  node_lines (written (trace (main demo_backend no_failure wide_frame))) =
  [(0, "amount"); (1, "status_late")].
Proof. vm_compute. reflexivity. Qed.

Example main_clash_frame_nodes :
  node_lines (written (trace (main demo_backend no_failure clash_frame))) =
  [(0, "status_late"); (1, "status_late0")].
Proof. vm_compute. reflexivity. Qed.

Theorem write_gdf_edge_iff
    (fails : oracle) (df : DataFrame) (path : string) (thr : float)
    (i j : nat) (w : float) :
  fails StOpen = false ->
  square df ->
  (In (EdgeLine i j w) (written (trace (write_gdf fails df path thr))) <->
   i < shape0 df /\ j < i /\ iat df i j = OK w /\ float_gt w thr = true).
Proof.
  intros Hopen Hsq.
  rewrite (written_write_gdf_square fails df path thr Hopen Hsq).
  destruct Hsq as [Hrect Hsq].
  destruct (write_edge_weights_rectangular df thr Hrect) as [_ Hiff].
  split.
  - intros [H|H]; [discriminate|].
    apply in_app_or in H as [H|[H|H]]; [| discriminate |].
    + apply in_map_iff in H as ([a b] & E & _). discriminate.
    + apply Hiff in H. tauto.
  - intros (Hi & Hji & Hw & Hg). right. apply in_or_app. right. right.
    apply Hiff. repeat split; try assumption. lia.
Qed.

Lemma write_gdf_edge_iff_witness :
  no_failure StOpen = false /\
  square demo_df /\
  (In (EdgeLine 1 0 0.5%float)
      (written (trace (write_gdf no_failure demo_df "x.gdf" CORR_THRESHOLD))) <->
   1 < shape0 demo_df /\ 0 < 1 /\ iat demo_df 1 0 = OK 0.5%float /\
   float_gt 0.5%float CORR_THRESHOLD = true).
Proof.
  assert (Hsq : square demo_df) by (split; [repeat constructor | reflexivity]).
  split; [reflexivity|]. split; [exact Hsq|].
  apply (write_gdf_edge_iff no_failure demo_df "x.gdf" CORR_THRESHOLD 1 0 0.5%float);
    [reflexivity | exact Hsq].
Defined.


(* ================================================================== *)
(** * Further properties of the writer                                 *)
(* ================================================================== *)

(** A run of the writer whose file can be opened, in terms of its two
    loops. *)
Lemma write_gdf_run (fails : oracle) (df : DataFrame) (path : string)
    (thr : float) :
  fails StOpen = false ->
  write_gdf fails df path thr =
  match write_node_labels df with
  | (tn, OK _) =>
      match write_edge_weights df thr with
      | (te, OK _) =>
          (EvPrint "Writing GDF file ..." :: EvOpen path :: EvWrite NodeDef ::
             tn ++ EvWrite EdgeDef :: te ++ [EvClose; EvPrint "Done."], OK tt)
      | (te, Raise e) =>
          (EvPrint "Writing GDF file ..." :: EvOpen path :: EvWrite NodeDef ::
             tn ++ EvWrite EdgeDef :: te ++ [EvClose], Raise e)
      end
  | (tn, Raise e) =>
      (EvPrint "Writing GDF file ..." :: EvOpen path :: EvWrite NodeDef ::
         tn ++ [EvClose], Raise e)
  end.
Proof.
  intros Hopen.
  unfold write_gdf, with_open, external, print, write, finally.
  rewrite Hopen.
  destruct (write_node_labels df) as [tn [[]|e]];
    destruct (write_edge_weights df thr) as [te [[]|e']]; simpl;
    rewrite <- ?app_assoc; simpl; rewrite <- ?app_assoc; simpl;
    rewrite ?app_nil_r; reflexivity.
Qed.

(** A trace that holds writes only is the list of its written lines. *)
Lemma only_writes (t : list event) :
  (forall e, In e t -> exists l, e = EvWrite l) ->
  t = map EvWrite (written t).
Proof.
  induction t as [|e t IH]; intros H; [reflexivity|].
  destruct (H e) as [l ->]; [now left|].
  simpl. f_equal. apply IH. intros e' He'. apply H. now right.
Qed.

Lemma written_map_EvWrite (ls : list gdf_line) :
  written (map EvWrite ls) = ls.
Proof. induction ls as [|l ls IH]; simpl; [reflexivity | now rewrite IH]. Qed.

Lemma write_node_labels_only_writes (df : DataFrame) :
  trace (write_node_labels df) =
  map EvWrite (written (trace (write_node_labels df))).
Proof.
  apply only_writes. intros e H. unfold write_node_labels in H.
  apply in_trace_for_each in H as (i & _ & H).
  destruct (columns_at df i) as [name|x]; simpl in H.
  - destruct H as [<-|[]]. eauto.
  - contradiction.
Qed.

Lemma write_edge_weights_only_writes (df : DataFrame) (thr : float) :
  trace (write_edge_weights df thr) =
  map EvWrite (written (trace (write_edge_weights df thr))).
Proof.
  apply only_writes. intros e H. unfold write_edge_weights in H.
  apply in_trace_for_each in H as (i & _ & H).
  apply in_trace_for_each in H as (j & _ & H).
  unfold write_edge in H. destruct (Nat.ltb j i); [|contradiction].
  destruct (iat df i j) as [w|x]; simpl in H; [|contradiction].
  destruct (float_gt w thr); simpl in H; [|contradiction].
  destruct H as [<-|[]]. eauto.
Qed.

(** The events of a run of the writer whose file was opened. *)
Lemma write_gdf_trace_shape (fails : oracle) (df : DataFrame) (path : string)
    (thr : float) :
  fails StOpen = false ->
  trace (write_gdf fails df path thr) =
  EvPrint "Writing GDF file ..." :: EvOpen path ::
  map EvWrite (written (trace (write_gdf fails df path thr))) ++
  EvClose ::
  match outcome (write_gdf fails df path thr) with
  | OK _ => [EvPrint "Done."]
  | Raise _ => []
  end.
Proof.
  intros Hopen.
  rewrite (write_gdf_run fails df path thr Hopen).
  pose proof (write_node_labels_only_writes df) as Hn.
  pose proof (write_edge_weights_only_writes df thr) as He.
  destruct (write_node_labels df) as [tn rn];
    destruct (write_edge_weights df thr) as [te re].
  unfold trace in Hn, He. simpl fst in Hn, He.
  remember (written tn) as wn. remember (written te) as we.
  subst tn te.
  destruct rn as [[]|e]; destruct re as [[]|e'];
    unfold trace, outcome; cbn [fst snd written];
    rewrite ?written_app; cbn [written];
    rewrite ?written_app; cbn [written];
    rewrite ?written_map_EvWrite, ?app_nil_r; cbn [map];
    rewrite ?map_app; cbn [map app]; rewrite <- ?app_assoc; cbn [app];
    reflexivity.
Qed.

(** X2: the output file is released on every path.  When it cannot be
    opened, the writer raises at once and writes nothing.  When it is
    opened, everything between the opening and the closing is a write,
    the file is closed whether or not a loop raised, and [Done.] is
    printed only when the writer returns. *)
Theorem write_gdf_closes_file
    (fails : oracle) (df : DataFrame) (path : string) (thr : float) :
  (fails StOpen = true ->
   write_gdf fails df path thr =
   ([EvPrint "Writing GDF file ..."], Raise (BackendError StOpen))) /\
  (fails StOpen = false ->
   trace (write_gdf fails df path thr) =
   EvPrint "Writing GDF file ..." :: EvOpen path ::
   map EvWrite (written (trace (write_gdf fails df path thr))) ++
   EvClose ::
   match outcome (write_gdf fails df path thr) with
   | OK _ => [EvPrint "Done."]
   | Raise _ => []
   end).
Proof.
  split; intros Hopen.
  - unfold write_gdf, with_open, external. rewrite Hopen. reflexivity.
  - now apply write_gdf_trace_shape.
Qed.

(** The node loop run for [n] rows from the column after [pre]: it
    writes a line for each of the next [n] columns there are, and
    raises when the columns run out first. *)
Lemma write_node_labels_from (df : DataFrame) (n : nat) :
  forall pre cols,
    columns df = pre ++ cols ->
    written (trace (for_each (seq (List.length pre) n) (fun i =>
               name <- lift (columns_at df i) ;; write (NodeLine i name)))) =
      map node_line_of
        (firstn n (combine (seq (List.length pre) (List.length cols)) cols)) /\
    outcome (for_each (seq (List.length pre) n) (fun i =>
               name <- lift (columns_at df i) ;; write (NodeLine i name))) =
      if (n <=? List.length cols)%nat then OK tt else Raise IndexError.
Proof.
  induction n as [|n IH]; intros pre cols Hcols; [split; reflexivity|].
  assert (Hat : columns_at df (List.length pre) =
                match cols with [] => Raise IndexError | c :: _ => OK c end).
  { unfold columns_at. rewrite Hcols, nth_error_app2, Nat.sub_diag by lia.
    destruct cols; reflexivity. }
  cbn [seq]. rewrite trace_for_each_cons. cbn [for_each].
  rewrite outcome_bind. cbv beta. rewrite Hat.
  destruct cols as [|c cols].
  - split; reflexivity.
  - destruct (IH (pre ++ [c]) cols) as [IHw IHo].
    { rewrite Hcols, <- app_assoc. reflexivity. }
    rewrite length_app, Nat.add_1_r in IHw, IHo.
    set (rest := for_each (seq (S (List.length pre)) n) _) in *.
    cbn [lift bind write emit trace outcome fst snd app written].
    clearbody rest. rewrite IHw. split; [reflexivity|].
    destruct rest as [t r]. exact IHo.
Qed.

(** X3: the node loop runs over the rows of the frame, not over its
    columns.  When the file can be opened, the node lines are those of
    the first [shape[0]] columns, numbered from 0.  With more rows than
    columns the writer raises IndexError after the line of the last
    column, and the edge header is never written; on a rectangular
    frame with at most as many rows as columns it returns. *)
Theorem write_gdf_nodes_follow_rows
    (fails : oracle) (df : DataFrame) (path : string) (thr : float) :
  fails StOpen = false ->
  node_lines (written (trace (write_gdf fails df path thr))) =
    firstn (shape0 df) (enumerate (columns df)) /\
  (shape1 df < shape0 df ->
   outcome (write_gdf fails df path thr) = Raise IndexError /\
   written (trace (write_gdf fails df path thr)) =
     NodeDef :: map node_line_of (enumerate (columns df))) /\
  (rectangular df -> shape0 df <= shape1 df ->
   outcome (write_gdf fails df path thr) = OK tt).
Proof.
  intros Hopen.
  destruct (write_node_labels_from df (shape0 df) [] (columns df) eq_refl)
    as [Hw Ho].
  cbn [List.length] in Hw, Ho. fold (enumerate (columns df)) in Hw.
  assert (Hn : written (trace (write_node_labels df)) =
               map node_line_of (firstn (shape0 df) (enumerate (columns df)))).
  { unfold write_node_labels, range. rewrite Nat.sub_0_r. exact Hw. }
  assert (Hno : outcome (write_node_labels df) =
                if (shape0 df <=? shape1 df)%nat then OK tt else Raise IndexError).
  { unfold write_node_labels, range. rewrite Nat.sub_0_r. exact Ho. }
  split; [|split].
  - rewrite written_write_gdf, Hopen. cbn [node_lines].
    rewrite node_lines_app, Hn, node_lines_node_line_of.
    destruct (outcome (write_node_labels df)); cbn [node_lines];
      [rewrite node_lines_write_edge_weights|]; apply app_nil_r.
  - intros Htall.
    assert (E : (shape0 df <=? shape1 df)%nat = false) by (apply Nat.leb_gt; lia).
    rewrite E in Hno. split.
    + rewrite (write_gdf_run fails df path thr Hopen).
      destruct (write_node_labels df) as [tn rn]. simpl in Hno. subst rn.
      reflexivity.
    + rewrite written_write_gdf, Hopen, Hno, Hn, app_nil_r.
      rewrite firstn_all2; [reflexivity|].
      rewrite length_enumerate. unfold shape1 in Htall. lia.
  - intros Hrect Hwide.
    assert (E : (shape0 df <=? shape1 df)%nat = true) by (apply Nat.leb_le; lia).
    rewrite E in Hno.
    destruct (write_edge_weights_rectangular df thr Hrect) as [He _].
    rewrite (write_gdf_run fails df path thr Hopen).
    destruct (write_node_labels df) as [tn rn]; simpl in Hno; subst rn.
    destruct (write_edge_weights df thr) as [te re]; simpl in He; subst re.
    reflexivity.
Qed.

Lemma write_gdf_nodes_follow_rows_witness :
  no_failure StOpen = false /\
  shape1 tall_df < shape0 tall_df /\
  write_gdf no_failure tall_df "x.gdf" CORR_THRESHOLD =
    ([EvPrint "Writing GDF file ..."; EvOpen "x.gdf"; EvWrite NodeDef;
      EvWrite (NodeLine 0 "a"); EvClose], Raise IndexError) /\
  node_lines (written (trace (write_gdf no_failure wide_df "x.gdf"
                                CORR_THRESHOLD))) = [(0, "a")] /\
  node_lines (written (trace (write_gdf no_failure tall_df "x.gdf"
                                CORR_THRESHOLD))) =
    firstn (shape0 tall_df) (enumerate (columns tall_df)).
Proof.
  split; [reflexivity|]. split; [unfold shape0, shape1; simpl; lia|].
  split; [reflexivity|]. split; [reflexivity|].
  apply (write_gdf_nodes_follow_rows no_failure tall_df "x.gdf" CORR_THRESHOLD).
  reflexivity.
Defined.


(** A float compares equal to itself unless it is NaN. *)
Lemma SFcompare_refl (x : spec_float) :
  SFcompare x x = match x with S754_nan => None | _ => Some Eq end.
Proof.
  destruct x as [s|s| |s m e]; simpl; try reflexivity.
  - destruct s; reflexivity.
  - destruct s; rewrite BinInt.Z.compare_refl;
      fold (BinPos.Pos.compare m m); rewrite BinPos.Pos.compare_refl;
      reflexivity.
Qed.

Lemma float_gt_not_nan (a b : float) :
  float_gt a b = true ->
  PrimFloat.is_nan a = false /\ PrimFloat.is_nan b = false.
Proof.
  unfold float_gt, PrimFloat.is_nan.
  rewrite FloatAxioms.ltb_spec, !FloatAxioms.eqb_spec.
  unfold SFltb, SFeqb. rewrite !SFcompare_refl. intros H.
  destruct (Prim2SF a), (Prim2SF b); simpl in H; try discriminate;
    split; reflexivity.
Qed.

(** X4: no edge line carries a NaN weight (the coefficient of a column
    without variance), and with a NaN threshold no edge line is written
    at all: the comparison of line 113 is false whenever either side is
    NaN. *)
Theorem write_gdf_never_writes_nan
    (fails : oracle) (df : DataFrame) (path : string) (thr : float)
    (i j : nat) (w : float) :
  In (EdgeLine i j w) (written (trace (write_gdf fails df path thr))) ->
  PrimFloat.is_nan w = false /\ PrimFloat.is_nan thr = false.
Proof.
  intros H. apply in_edge_lines in H. rewrite edge_lines_write_gdf in H.
  destruct (fails StOpen); [contradiction|].
  destruct (outcome (write_node_labels df)); [|contradiction].
  apply in_edge_lines, in_write_edge_weights in H as (_ & _ & _ & _ & H).
  now apply float_gt_not_nan.
Qed.

Lemma write_gdf_never_writes_nan_witness :
  In (EdgeLine 1 0 0.5%float)
     (written (trace (write_gdf no_failure demo_df "x.gdf" CORR_THRESHOLD))) /\
  PrimFloat.is_nan 0.5%float = false /\
  PrimFloat.is_nan CORR_THRESHOLD = false.
Proof.
  assert (H : In (EdgeLine 1 0 0.5%float)
                (written (trace (write_gdf no_failure demo_df "x.gdf"
                                   CORR_THRESHOLD)))).
  { vm_compute. auto 10. }
  split; [exact H|].
  exact (write_gdf_never_writes_nan no_failure demo_df "x.gdf" CORR_THRESHOLD
           1 0 0.5%float H).
Defined.

Lemma length_lower_triangle (n : nat) :
  2 * List.length (lower_triangle n) = n * (n - 1).
Proof.
  unfold lower_triangle. induction n as [|n IH]; [reflexivity|].
  rewrite seq_S, flat_map_app, length_app. simpl flat_map.
  rewrite app_nil_r, length_map, length_seq. nia.
Qed.

Lemma in_lower_triangle (n i j : nat) :
  In (i, j) (lower_triangle n) <-> j < i < n.
Proof.
  unfold lower_triangle. rewrite in_flat_map. split.
  - intros (a & Ha & H). apply in_seq in Ha.
    apply in_map_iff in H as (b & E & Hb). injection E as -> ->.
    apply in_seq in Hb. lia.
  - intros H. exists i. split; [apply in_seq; lia|].
    apply in_map_iff. exists j. split; [reflexivity | apply in_seq; lia].
Qed.

(** X5: whatever the frame and the threshold, a file holds at most
    n(n-1)/2 edge lines, n being the number of rows of the frame. *)
Theorem write_gdf_edge_count
    (fails : oracle) (df : DataFrame) (path : string) (thr : float) :
  2 * List.length (edge_lines (written (trace (write_gdf fails df path thr))))
  <= shape0 df * (shape0 df - 1).
Proof.
  rewrite <- length_lower_triangle.
  apply Nat.mul_le_mono_l.
  rewrite <- (length_map fst). fold (edge_keys (written (trace (write_gdf fails df path thr)))).
  apply NoDup_incl_length.
  - unfold edge_keys. rewrite edge_lines_write_gdf.
    destruct (fails StOpen); [constructor|].
    destruct (outcome (write_node_labels df)); [|constructor].
    apply NoDup_edge_keys_write_edge_weights.
  - intros [i j] H. unfold edge_keys in H.
    apply in_map_iff in H as ([[a b] w] & E & H). simpl in E. injection E as -> ->.
    rewrite edge_lines_write_gdf in H.
    destruct (fails StOpen); [contradiction|].
    destruct (outcome (write_node_labels df)); [|contradiction].
    apply in_edge_lines, in_write_edge_weights in H.
    apply in_lower_triangle. lia.
Qed.


(* ================================================================== *)
(** * Further properties of the sanitization                           *)
(* ================================================================== *)

Lemma re_sub_char (cls : ascii -> bool) (s : string) :
  list_ascii_of_string (re_sub cls REPLACE_CHAR s) =
  map (fun c => if cls c then "_"%char else c) (list_ascii_of_string s).
Proof.
  induction s as [|c s IH]; [reflexivity|].
  simpl re_sub. destruct (cls c) eqn:E; simpl; rewrite E, IH; reflexivity.
Qed.

Lemma sanitize_chars (s : string) :
  list_ascii_of_string (sanitize s) =
  map sanitize_char (list_ascii_of_string s).
Proof.
  unfold sanitize. rewrite !re_sub_char, map_map. apply map_ext.
  intros c. unfold sanitize_char.
  destruct (search_str c) eqn:E; [reflexivity|].
  simpl. reflexivity.
Qed.

Lemma sanitize_char_clean (c : ascii) :
  search_str (sanitize_char c) = false /\ quote_str (sanitize_char c) = false.
Proof.
  unfold sanitize_char.
  destruct (search_str c) eqn:E1; [split; reflexivity|].
  destruct (quote_str c) eqn:E2; [split; reflexivity|]. auto.
Qed.

Lemma sanitize_char_idempotent (c : ascii) :
  sanitize_char (sanitize_char c) = sanitize_char c.
Proof.
  destruct (sanitize_char_clean c) as [H1 H2].
  unfold sanitize_char at 1. now rewrite H1, H2.
Qed.

Lemma clean_name_chars (s : string) :
  clean_name s = true <->
  forall c, In c (list_ascii_of_string s) ->
            search_str c = false /\ quote_str c = false.
Proof.
  induction s as [|a s IH]; simpl.
  - split; [intros _ c [] | reflexivity].
  - rewrite andb_true_iff, negb_true_iff, orb_false_iff, IH. split.
    + intros [Ha Hs] c [<-|Hc]; auto.
    + intros H. split; [apply H; now left | intros c Hc; apply H; now right].
Qed.

Lemma string_of_list_ascii_inj (s t : string) :
  list_ascii_of_string s = list_ascii_of_string t -> s = t.
Proof.
  intros H. rewrite <- (string_of_list_ascii_of_string s),
    <- (string_of_list_ascii_of_string t). now rewrite H.
Qed.

Lemma length_list_ascii (s : string) :
  List.length (list_ascii_of_string s) = String.length s.
Proof. induction s as [|c s IH]; simpl; [reflexivity | now rewrite IH]. Qed.

(** X6: the two substitutions together replace, character by
    character, every character of the class of [search_str] and every
    single quote by the replacement character and keep the others.  So
    a sanitized name has the length of the original, holds none of
    those characters, is unchanged by a second sanitization, and a name
    without them is left as it is. *)
Theorem sanitize_characterwise (s : string) :
  list_ascii_of_string (sanitize s) =
    map sanitize_char (list_ascii_of_string s) /\
  String.length (sanitize s) = String.length s /\
  clean_name (sanitize s) = true /\
  sanitize (sanitize s) = sanitize s /\
  (clean_name s = true -> sanitize s = s).
Proof.
  split; [apply sanitize_chars|]. split; [|split; [|split]].
  - now rewrite <- !length_list_ascii, sanitize_chars, length_map.
  - apply clean_name_chars. intros c Hc. rewrite sanitize_chars in Hc.
    apply in_map_iff in Hc as (a & <- & _). apply sanitize_char_clean.
  - apply string_of_list_ascii_inj. rewrite !sanitize_chars, map_map.
    apply map_ext. apply sanitize_char_idempotent.
  - intros H. apply string_of_list_ascii_inj. rewrite sanitize_chars.
    rewrite <- (map_id (list_ascii_of_string s)) at 2.
    apply map_ext_in. intros c Hc.
    destruct (proj1 (clean_name_chars s) H c Hc) as [H1 H2].
    unfold sanitize_char. now rewrite H1, H2.
Qed.

Example sanitize_loan_status :
  sanitize "Does not meet the credit policy. Status:Fully Paid" =
  "Does_not_meet_the_credit_policy__Status_Fully_Paid".
Proof. reflexivity. Qed.

(* ================================================================== *)
(** * Further properties of the encoding loop                          *)
(* ================================================================== *)

(** ** Runs that return *)

Lemma bind_ret_inv {A C} (m : M A) (f : A -> M C) (c : C) :
  bind m f = ret c -> exists a, m = ret a /\ f a = ret c.
Proof.
  destruct m as [t [a|e]]; unfold bind, ret; [|discriminate].
  destruct (f a) as [t' r] eqn:E. intros H. injection H as Ht ->.
  apply app_eq_nil in Ht as [-> ->]. exists a. split; [reflexivity | exact E].
Qed.

Lemma for_fold_cons_inv {A S} (body : A -> S -> M S) (x : A) (l : list A)
    (st st' : S) :
  for_fold (x :: l) body st = ret st' ->
  exists st1, body x st = ret st1 /\ for_fold l body st1 = ret st'.
Proof. simpl. apply bind_ret_inv. Qed.

(** A loop that returns keeps what each returning pass keeps. *)
Lemma for_fold_partial {A S} (body : A -> S -> M S) (I : S -> Prop) :
  (forall x st st', I st -> body x st = ret st' -> I st') ->
  forall l st st', I st -> for_fold l body st = ret st' -> I st'.
Proof.
  intros Hstep l. induction l as [|x l IH]; intros st st' HI H.
  - apply ret_inj in H. now subst.
  - apply for_fold_cons_inv in H as (st1 & H1 & H2).
    exact (IH st1 st' (Hstep x st st1 HI H1) H2).
Qed.

(** When the body of the loop over [encode_list] returns, the backend
    answered, the frame held a column of that name, the column was
    categorical, and the column was replaced by its indicators. *)
Lemma encode_column_inv (B : Backend) (fails : oracle) (name : string)
    (st st' : loop_state) :
  encode_column B fails name st = ret st' ->
  exists col level_list,
    getitem (fst st) name = OK col /\
    categories col = OK level_list /\
    st' = replace_by_indicators B col level_list st.
Proof.
  intros H.
  destruct (fails StEncode) eqn:Hup.
  { unfold encode_column, fetch, external in H. rewrite Hup in H.
    discriminate. }
  destruct (getitem (fst st) name) as [col|e] eqn:Hget.
  2:{ unfold encode_column, fetch, external in H. rewrite Hup, Hget in H.
      discriminate. }
  destruct (categories col) as [lv|e] eqn:Hcat.
  2:{ unfold encode_column in H.
      rewrite (fetch_ok fails Hup name col (fst st) Hget), bind_ret in H.
      rewrite Hcat in H. discriminate. }
  rewrite (encode_column_ok B fails name col lv st Hup Hget Hcat) in H.
  apply ret_inj in H. eauto.
Qed.

(** What the levels of one column add, on any frame. *)
Lemma add_indicators_made (B : Backend) (col : Column)
    (levels : list string) (st : loop_state) :
  exists made,
    fold_left (add_indicator B (sanitize (col_name col)) col) levels st =
      (fst st ++ map fst made, snd st ++ map snd made) /\
    Forall2 (fun level dn =>
               (exists k, snd dn =
                          appended (join2 (sanitize (col_name col))
                                      (sanitize level)) k) /\
               indicator_of B col level (snd dn) (fst dn))
      levels made /\
    Forall (fun dn => ~ In (col_name (fst dn)) (names (fst st))) made.
Proof.
  revert st. induction levels as [|lv levels IH]; intros [fr nnl].
  - exists []. simpl. rewrite !app_nil_r.
    split; [reflexivity | split; constructor].
  - simpl fold_left. cbn [fst snd] in *.
    set (new_name := remedy nnl (join2 (sanitize (col_name col)) (sanitize lv))).
    set (d := set_columns (indicator B col new_name lv)
                (uniquify (names fr) new_name)).
    assert (Est : add_indicator B (sanitize (col_name col)) col (fr, nnl) lv =
                  (fr ++ [d], nnl ++ [new_name])) by reflexivity.
    rewrite Est.
    destruct (IH (fr ++ [d], nnl ++ [new_name])) as (made & E & H & Hnew).
    cbn [fst snd] in *.
    exists ((d, new_name) :: made). cbn [map fst snd].
    rewrite <- !app_assoc in *. cbn [app] in *.
    split; [exact E|]. split.
    + constructor; [|exact H]. cbn [fst snd]. split.
      * destruct (remedy_least nnl
                    (join2 (sanitize (col_name col)) (sanitize lv)))
          as (k & Ek & _).
        exists k. exact Ek.
      * split; [reflexivity | apply uniquify_renamed].
    + constructor.
      * cbn [fst]. apply uniquify_fresh.
      * eapply Forall_impl; [|exact Hnew].
        intros dn Hdn Hin. apply Hdn. rewrite names_app.
        apply in_or_app. now left.
Qed.

(** ** Clean names *)

Lemma clean_name_app (a b : string) :
  clean_name (a ++ b) = clean_name a && clean_name b.
Proof.
  induction a as [|c a IH]; simpl; [reflexivity|].
  now rewrite IH, andb_assoc.
Qed.

Lemma clean_name_appended (s : string) (k : nat) :
  clean_name s = true -> clean_name (appended s k) = true.
Proof.
  revert s. induction k as [|k IH]; intros s H; [exact H|].
  simpl. apply IH. rewrite clean_name_app, H. reflexivity.
Qed.

Lemma clean_name_sanitize (s : string) : clean_name (sanitize s) = true.
Proof.
  apply clean_name_chars. intros c Hc. rewrite sanitize_chars in Hc.
  apply in_map_iff in Hc as (a & <- & _). apply sanitize_char_clean.
Qed.

Lemma clean_name_new_name (a b : string) (k : nat) :
  clean_name (appended (join2 (sanitize a) (sanitize b)) k) = true.
Proof.
  apply clean_name_appended. unfold join2.
  now rewrite !clean_name_app, !clean_name_sanitize.
Qed.

(** The digits of a number are no characters of the class. *)
Lemma clean_name_str_nat (n : nat) : clean_name (str_nat n) = true.
Proof.
  unfold str_nat. generalize (Nat.to_uint n). intros d.
  induction d; simpl; auto.
Qed.

Lemma clean_name_renamed (n final : string) :
  clean_name n = true -> renamed n final -> clean_name final = true.
Proof.
  intros Hn [->|[k ->]]; [exact Hn|].
  now rewrite clean_name_app, Hn, clean_name_str_nat.
Qed.

(** What a returning run of the loop keeps: the new names are clean,
    and the frame is made of columns of the frame it started on,
    followed by columns with clean names. *)
Lemma clean_names_kept (B : Backend) (fr0 : H2OFrame) (col : Column)
    (level_list : list string) (st : loop_state) :
  (Forall (fun n => clean_name n = true) (snd st) /\
   exists kept derived,
     fst st = kept ++ derived /\ incl kept fr0 /\
     Forall (fun c => clean_name (col_name c) = true) derived) ->
  Forall (fun n => clean_name n = true)
    (snd (replace_by_indicators B col level_list st)) /\
  exists kept derived,
    fst (replace_by_indicators B col level_list st) = kept ++ derived /\
    incl kept fr0 /\
    Forall (fun c => clean_name (col_name c) = true) derived.
Proof.
  intros (Hnnl & kept & derived & Efr & Hkept & Hder).
  unfold replace_by_indicators.
  destruct (add_indicators_made B col (kept_levels level_list) st)
    as (made & -> & Hmade & _).
  cbn [fst snd].
  assert (Hclean : forall dn, In dn made ->
            clean_name (snd dn) = true /\ clean_name (col_name (fst dn)) = true).
  { intros dn Hdn.
    destruct (Forall2_In_r _ _ _ dn Hmade Hdn) as (level & _ & [k Hk] & _ & Hren).
    assert (H : clean_name (snd dn) = true)
      by (rewrite Hk; apply clean_name_new_name).
    split; [exact H | exact (clean_name_renamed _ _ H Hren)]. }
  split.
  - apply Forall_app. split; [exact Hnnl|].
    apply Forall_forall. intros n Hn. apply in_map_iff in Hn as (dn & <- & Hdn).
    now apply Hclean.
  - exists (without kept (col_name col)),
      (without (derived ++ map fst made) (col_name col)).
    split; [now rewrite Efr, <- app_assoc, without_app|]. split.
    + intros c Hc. apply In_without in Hc as [Hc _]. now apply Hkept.
    + apply Forall_forall. intros c Hc. apply In_without in Hc as [Hc _].
      apply in_app_or in Hc as [Hc|Hc].
      * rewrite Forall_forall in Hder. now apply Hder.
      * apply in_map_iff in Hc as (dn & <- & Hdn). now apply Hclean.
Qed.

(** The loop does not return on every list of column names: asked to
    encode a numeric column, it raises what [categories()] raises. *)
Example encoding_loop_raises_on_numeric_column :
  for_fold ["amount"] (encode_column demo_backend no_failure) (demo_frame, []) =
  ([], Raise H2OValueError).
Proof. reflexivity. Qed.

(** X7: the names given to the indicator columns hold no character of
    the class of [search_str] and no single quote, the characters
    appended by the collision remedy included; so do the names of the
    indicator columns of the frame after the loop, the digits that
    [cbind] may add included.  This holds of every run of the loop that
    returns, over any list of names; and the loop returns when the
    backend answers and the list holds distinct names of categorical
    columns of a frame with distinct column names. *)
Theorem indicator_names_are_clean
    (B : Backend) (fails : oracle) (fr0 : H2OFrame) (l : list string) :
  (forall st,
      for_fold l (encode_column B fails) (fr0, []) = ret st ->
      Forall (fun n => clean_name n = true) (snd st) /\
      exists kept derived,
        fst st = kept ++ derived /\ incl kept fr0 /\
        Forall (fun c => clean_name (col_name c) = true) derived) /\
  (fails StEncode = false ->
   NoDup l -> incl l (names fr0) ->
   NoDup (names fr0) ->
   (forall c, In c fr0 -> In (col_name c) l ->
              exists level_list, categories c = OK level_list) ->
   exists st, for_fold l (encode_column B fails) (fr0, []) = ret st).
Proof.
  split.
  - intros st.
    apply (for_fold_partial (encode_column B fails)
             (fun st =>
                Forall (fun n => clean_name n = true) (snd st) /\
                exists kept derived,
                  fst st = kept ++ derived /\ incl kept fr0 /\
                  Forall (fun c => clean_name (col_name c) = true) derived)).
    + intros x s s' Hs H.
      apply encode_column_inv in H as (col & lv & _ & _ & ->).
      now apply clean_names_kept.
    + split; [constructor|]. exists fr0, []. rewrite app_nil_r.
      split; [reflexivity|]. split; [apply incl_refl | constructor].
  - intros Hup Hl Hin Hnd Hcat.
    destruct (encoding_loop_ok B fails fr0 l Hup Hnd Hl) as (st & _ & E & _).
    + intros x Hx. apply Hin in Hx as Hx'.
      apply in_map_iff in Hx' as (c & <- & Hc).
      destruct (Hcat c Hc Hx) as [lv Hlv]. eauto.
    + eauto.
Qed.

Lemma indicator_names_are_clean_witness :
  for_fold ["home ownership"] (encode_column demo_backend no_failure)
    (punctuated_frame, []) =
  ret ([ mkColumn "home_ownership_N_A" "int" []
           [Num (-1); Num 1; Num (-1)]%float;
         mkColumn "home_ownership_O_Neil__Inc_" "int" []
           [Num (-1); Num (-1); Num 1]%float;
         mkColumn "home_ownership_rent" "int" []
           [Num 1; Num (-1); Num (-1)]%float ],
       ["home_ownership_N_A"; "home_ownership_O_Neil__Inc_";
        "home_ownership_rent"]) /\
  exists st,
    for_fold ["home ownership"] (encode_column demo_backend no_failure)
      (punctuated_frame, []) = ret st /\
    Forall (fun n => clean_name n = true) (snd st).
Proof.
  split; [vm_compute; reflexivity|].
  destruct (indicator_names_are_clean demo_backend no_failure punctuated_frame
              ["home ownership"]) as [Hclean Hret].
  destruct Hret as [st E].
  - reflexivity.
  - repeat constructor. intros [].
  - intros x [<-|[]]. now left.
  - repeat constructor. intros [].
  - intros c [<-|[]] _. eexists. reflexivity.
  - exists st. split; [exact E | apply (Hclean st E)].
Defined.

(** X12: whenever line 147 does not raise, on a frame with distinct
    column names and a backend that answers, the loop over
    [encode_list] returns, and it leaves nothing to encode: no column
    that was selected is left in the frame, every column of the frame
    is a column that was not selected or a column of type int, and none
    passes the two tests of lines 141-147. *)
Theorem encoded_columns_are_replaced
    (B : Backend) (fails : oracle) (fr0 : H2OFrame) (enc : list string) :
  fails StEncode = false ->
  NoDup (names fr0) ->
  encode_list B fr0 = OK enc ->
  exists st,
    for_fold enc (encode_column B fails) (fr0, []) = ret st /\
    (forall c, In c fr0 -> In (col_name c) enc -> ~ In c (fst st)) /\
    (forall c, In c (fst st) ->
               (In c fr0 /\ ~ In (col_name c) enc) \/ col_type c = "int") /\
    (forall c, In c (fst st) -> encodable c = false).
Proof.
  intros Hup Hnd Eenc.
  destruct (encode_list_inv B fr0 enc Hnd Eenc) as (_ & Henc & Hmem & Hcols).
  destruct (encoding_loop_ok B fails fr0 enc Hup Hnd Henc Hcols)
    as (st & made & Erun & Efr & _ & _ & _ & Hmade & _).
  exists st. split; [exact Erun|].
  assert (Hcase : forall c, In c (fst st) ->
            (In c fr0 /\ ~ In (col_name c) enc) \/ col_type c = "int").
  { intros c Hc. rewrite Efr in Hc. apply in_app_or in Hc as [Hc|Hc].
    - left. now apply In_without_list.
    - right. apply in_map_iff in Hc as (dn & <- & Hdn).
      rewrite Forall_forall in Hmade.
      destruct (Hmade dn Hdn) as (col & lv & level & k & _ & _ & _ & _ & _ & Hind).
      now apply indicator_of_type in Hind as [Hty _]. }
  assert (Hnot : forall c, In c (fst st) -> encodable c = false).
  { intros c Hc. destruct (Hcase c Hc) as [[Hc0 Hn]|Hty].
    - destruct (encodable c) eqn:E; [|reflexivity].
      exfalso. apply Hn. now apply Hmem.
    - unfold encodable. rewrite Hty. reflexivity. }
  split; [|split; [exact Hcase | exact Hnot]].
  intros c Hc Hin Hst. apply (Hmem c Hc) in Hin.
  rewrite (Hnot c Hst) in Hin. discriminate.
Qed.

Lemma encoded_columns_are_replaced_witness :
  no_failure StEncode = false /\
  NoDup (names demo_frame) /\
  encode_list demo_backend demo_frame = OK ["status"; "grade"] /\
  exists st,
    for_fold ["status"; "grade"] (encode_column demo_backend no_failure)
      (demo_frame, []) = ret st /\
    (forall c, In c demo_frame -> In (col_name c) ["status"; "grade"] ->
               ~ In c (fst st)) /\
    (forall c, In c (fst st) -> encodable c = false).
Proof.
  split; [reflexivity|]. split; [exact NoDup_names_demo_frame|].
  split; [reflexivity|].
  destruct (encoded_columns_are_replaced demo_backend no_failure demo_frame
              ["status"; "grade"] eq_refl NoDup_names_demo_frame eq_refl)
    as (st & E & H1 & _ & H2).
  exists st. auto.
Defined.

(** X8: for a categorical column with three or more levels the loop
    creates one indicator column per level, in the order of
    [categories()]: each is the indicator of lines 173-177 for its
    level, of type int and with as many rows as the column, added to
    the frame under its new name or the name [cbind] makes of it.  The
    frame after the body is the frame before it without the column,
    followed by the new columns; the new names are appended to the
    list of new names. *)
Theorem one_indicator_per_level
    (B : Backend) (fails : oracle) (name : string) (col : Column)
    (level_list : list string) (st : loop_state) :
  fails StEncode = false ->
  getitem (fst st) name = OK col ->
  categories col = OK level_list ->
  3 <= List.length level_list ->
  exists made,
    encode_column B fails name st =
      ret (without (fst st) name ++ map fst made, snd st ++ map snd made) /\
    Forall2 (fun level dn => indicator_of B col level (snd dn) (fst dn))
      level_list made /\
    Forall (fun dn => col_type (fst dn) = "int" /\
                      List.length (col_data (fst dn)) =
                      List.length (col_data col))
      made.
Proof.
  intros Hup Hget Hcat Hlv.
  rewrite (encode_column_ok B fails name col level_list st Hup Hget Hcat).
  unfold replace_by_indicators, kept_levels.
  replace (List.length level_list <=? 2)%nat with false
    by (symmetry; apply Nat.leb_gt; lia).
  destruct (add_indicators_made B col level_list st)
    as (made & E & Hall & Hnew).
  destruct (getitem_name _ _ _ Hget) as [Hin Hname].
  exists made. rewrite E, Hname. cbn [fst snd]. split.
  { rewrite without_app, (without_absent (map fst made) name);
      [reflexivity|].
    intros H. apply in_map_iff in H as (d & Ed & Hd).
    apply in_map_iff in Hd as (dn & <- & Hdn).
    rewrite Forall_forall in Hnew. apply (Hnew dn Hdn).
    rewrite Ed, <- Hname. now apply In_names. }
  clear E Hlv Hcat Hnew. induction Hall as [|lv dn lvs dns [_ Hind] _ [IH1 IH2]].
  - split; constructor.
  - split; constructor; auto.
    destruct (indicator_of_type B col lv (snd dn) (fst dn) Hind) as (H1 & _ & H2).
    auto.
Qed.

Lemma one_indicator_per_level_witness :
  no_failure StEncode = false /\
  getitem [grade_column] "grade" = OK grade_column /\
  categories grade_column = OK ["A/B"; "A,B"; "C"] /\
  encode_column demo_backend no_failure "grade" ([grade_column], []) =
  ret ([ mkColumn "grade_A_B" "int" [] [Num 1; Num (-1); Num (-1)]%float;
         mkColumn "grade_A_B_" "int" [] [Num (-1); Num (-1); Num 1]%float;
         mkColumn "grade_C" "int" [] [Num (-1); Num 1; Num (-1)]%float ],
       ["grade_A_B"; "grade_A_B_"; "grade_C"]) /\
  exists made : list (Column * string),
    encode_column demo_backend no_failure "grade" ([grade_column], []) =
      ret (without [grade_column] "grade" ++ map fst made,
           [] ++ map snd made) /\
    List.length made = 3.
Proof.
  split; [reflexivity|]. split; [reflexivity|]. split; [reflexivity|].
  split; [vm_compute; reflexivity|].
  destruct (one_indicator_per_level demo_backend no_failure "grade"
              grade_column ["A/B"; "A,B"; "C"] ([grade_column], [])
              eq_refl eq_refl eq_refl)
    as (made & E & Hall & _); [simpl; lia|].
  exists made. split; [exact E|].
  apply Forall2_length in Hall. now rewrite <- Hall.
Defined.

(** X9: when the backend takes a character cell to differ from the
    number 1.0 exactly when its text is not 1.0, and [asnumeric] reads
    the texts 1.0 and -1.0 as 1 and -1, the indicator of a level is
    right on every row that holds a value other than the text 1.0 (or
    when the level itself is 1.0): 1 when the row holds the level, -1
    otherwise. *)
Theorem indicator_right_unless_cell_reads_one
    (B : Backend) (col : Column) (new_name level : string)
    (k : nat) (s : string) :
  (forall t, ne_number B (Str t) 1.0%float = negb (String.eqb t "1.0")) ->
  asnumeric_cell B (Str "1.0") = Num 1%float ->
  asnumeric_cell B (Str "-1.0") = Num (-1)%float ->
  nth_error (col_data col) k = Some (Str s) ->
  (s = "1.0" -> level = "1.0") ->
  nth_error (col_data (indicator B col new_name level)) k =
  Some (if String.eqb s level then Num 1%float else Num (-1)%float).
Proof.
  intros Hne Hone Hminus Hk Hs.
  unfold indicator, asnumeric, assign_where, set_columns, ascharacter.
  cbn [col_data]. rewrite !map_map.
  rewrite (map_nth_error _ _ _ Hk). f_equal.
  cbn [cell_eq]. destruct (String.eqb s level) eqn:E.
  - rewrite Hne. cbn. exact Hone.
  - rewrite Hne.
    destruct (String.eqb s "1.0") eqn:E1.
    + apply String.eqb_eq in E1. specialize (Hs E1). subst.
      rewrite String.eqb_refl in E. discriminate.
    + cbn. exact Hminus.
Qed.

Lemma indicator_right_unless_cell_reads_one_witness :
  nth_error (col_data status_column) 1 = Some (Str "late") /\
  nth_error (col_data (indicator demo_backend status_column "status_late"
                         "late")) 1 = Some (Num 1%float).
Proof.
  split; [reflexivity|].
  apply (indicator_right_unless_cell_reads_one demo_backend status_column
           "status_late" "late" 1 "late");
    [reflexivity | reflexivity | reflexivity | reflexivity | discriminate].
Defined.

(* ================================================================== *)
(** * Further properties of main                                       *)
(* ================================================================== *)








(** The outcome of a run in which no external call fails and the
    encoding loop is not reached, or raises. *)
Lemma main_returns_inv (B : Backend) (fails : oracle) (parsed : H2OFrame) :
  (forall s, fails s = false) ->
  outcome (main B fails parsed) = OK tt ->
  exists fr enc st sel df,
    drop_list parsed DROP_LIST = OK fr /\
    encode_list B fr = OK enc /\
    for_fold enc (encode_column B fails) (fr, []) = ret st /\
    cor B sel = OK (CorFrame df) /\
    main B fails parsed =
    ([EvInit; EvPrint "Encoding enums ..."; EvPrint "Done.";
      EvPrint "Calculating Pearson correlations ..."; EvPrint "Done."] ++
     trace (write_gdf fails df OUT_FILE_PATH_STRING CORR_THRESHOLD) ++
     [EvShutdown], OK tt).
Proof.
  intros Hup Hok.
  destruct (drop_list parsed DROP_LIST) as [fr|e] eqn:Edrop.
  2:{ rewrite (main_no_frame B fails parsed e Hup) in Hok;
        [discriminate | now left]. }
  destruct (encode_list B fr) as [enc|e] eqn:Eenc.
  2:{ rewrite (main_no_frame B fails parsed e Hup) in Hok;
        [discriminate | right; eauto]. }
  destruct (outcome (for_fold enc (encode_column B fails) (fr, [])))
    as [st|e] eqn:Eloop.
  2:{ rewrite (main_loop_raises B fails parsed fr enc e Hup Edrop Eenc Eloop)
        in Hok. discriminate. }
  assert (Erun : for_fold enc (encode_column B fails) (fr, []) = ret st).
  { rewrite (run_eta (for_fold _ _ _)), trace_encoding_loop, Eloop.
    reflexivity. }
  destruct (main_run B fails parsed fr enc st Hup Edrop Eenc Erun)
    as (sel & _ & _ & Emain).
  exists fr, enc, st, sel.
  destruct (cor B sel) as [[x|df]|e]; rewrite Emain in Hok;
    try discriminate.
  exists df. auto.
Qed.

(** X11: a run of [main] in which no external call fails and that
    returns has these events, in this order: the start of the backend,
    the four progress messages of the encoding and the correlation,
    the message and the opening of [OUT_FILE_PATH_STRING], writes
    only, the closing of the file, the last message, and the shutdown
    of the backend. *)
Theorem main_events_when_nothing_fails
    (B : Backend) (fails : oracle) (parsed : H2OFrame) :
  (forall s, fails s = false) ->
  outcome (main B fails parsed) = OK tt ->
  main B fails parsed =
  ([EvInit; EvPrint "Encoding enums ..."; EvPrint "Done.";
    EvPrint "Calculating Pearson correlations ..."; EvPrint "Done.";
    EvPrint "Writing GDF file ..."; EvOpen OUT_FILE_PATH_STRING] ++
   map EvWrite (written (trace (main B fails parsed))) ++
   [EvClose; EvPrint "Done."; EvShutdown], OK tt).
Proof.
  intros Hup Hok.
  destruct (main_returns_inv B fails parsed Hup Hok)
    as (fr & enc & st & sel & df & _ & _ & _ & Ecor & Emain).
  destruct (cor_frame_inv B sel df Ecor) as (_ & Hsq & _).
  pose proof (write_gdf_trace_shape fails df OUT_FILE_PATH_STRING
                CORR_THRESHOLD (Hup StOpen)) as Ht.
  rewrite (write_gdf_ok fails df OUT_FILE_PATH_STRING CORR_THRESHOLD
             (Hup StOpen) Hsq) in Ht.
  assert (Hw : written (trace (main B fails parsed)) =
               written (trace (write_gdf fails df OUT_FILE_PATH_STRING
                                 CORR_THRESHOLD))).
  { rewrite Emain. unfold trace at 1. cbn [fst app written].
    rewrite written_app. cbn [written]. now rewrite app_nil_r. }
  rewrite Hw. rewrite Emain at 1. rewrite Ht at 1.
  cbn [app]. rewrite <- app_assoc. reflexivity.
Qed.

Lemma main_events_when_nothing_fails_witness :
  (forall s, no_failure s = false) /\
  outcome (main demo_backend no_failure comma_frame) = OK tt /\
  main demo_backend no_failure comma_frame =
  ([EvInit; EvPrint "Encoding enums ..."; EvPrint "Done.";
    EvPrint "Calculating Pearson correlations ..."; EvPrint "Done.";
    EvPrint "Writing GDF file ..."; EvOpen OUT_FILE_PATH_STRING] ++
   map EvWrite (written (trace (main demo_backend no_failure comma_frame))) ++
   [EvClose; EvPrint "Done."; EvShutdown], OK tt).
Proof.
  split; [reflexivity|]. split; [vm_compute; reflexivity|].
  apply (main_events_when_nothing_fails demo_backend no_failure comma_frame);
    [reflexivity | vm_compute; reflexivity].
Defined.

(** ** What main raises by itself *)







Example main_open_fails :
  main demo_backend open_fails comma_frame =
  ([EvInit; EvPrint "Encoding enums ..."; EvPrint "Done.";
    EvPrint "Calculating Pearson correlations ..."; EvPrint "Done.";
    EvPrint "Writing GDF file ..."], Raise (BackendError StOpen)).
Proof. vm_compute. reflexivity. Qed.

(* ================================================================== *)
(** * The graph is well formed                                         *)
(* ================================================================== *)

Lemma written_write_node_labels (df : DataFrame) :
  written (trace (write_node_labels df)) =
    map node_line_of (firstn (shape0 df) (enumerate (columns df))) /\
  outcome (write_node_labels df) =
    if (shape0 df <=? shape1 df)%nat then OK tt else Raise IndexError.
Proof.
  destruct (write_node_labels_from df (shape0 df) [] (columns df) eq_refl)
    as [Hw Ho].
  cbn [List.length] in Hw, Ho. fold (enumerate (columns df)) in Hw.
  unfold write_node_labels, range. rewrite Nat.sub_0_r. split; assumption.
Qed.

Lemma firstn_seq_le (n a len : nat) :
  n <= len -> firstn n (seq a len) = seq a n.
Proof.
  revert a len. induction n as [|n IH]; intros a [|len] H; simpl;
    try reflexivity; try lia.
  f_equal. apply IH. lia.
Qed.

Lemma in_firstn_enumerate {A} (l : list A) (n i : nat) :
  i < n -> n <= List.length l ->
  exists x, In (i, x) (firstn n (enumerate l)).
Proof.
  intros Hi Hn. unfold enumerate.
  rewrite combine_firstn, firstn_seq_le by lia.
  assert (E : List.length (firstn n l) = n) by (rewrite length_firstn; lia).
  replace (seq 0 n) with (seq 0 (List.length (firstn n l))) by now rewrite E.
  fold (enumerate (firstn n l)). apply in_enumerate_lt. lia.
Qed.

(** X14: whatever the frame, every edge line joins two nodes that the
    file declares: both its ids are ids of node lines written before. *)
Theorem write_gdf_edges_join_nodes
    (fails : oracle) (df : DataFrame) (path : string) (thr : float)
    (i j : nat) (w : float) :
  In (EdgeLine i j w) (written (trace (write_gdf fails df path thr))) ->
  exists ni nj,
    In (NodeLine i ni) (written (trace (write_gdf fails df path thr))) /\
    In (NodeLine j nj) (written (trace (write_gdf fails df path thr))).
Proof.
  intros H. apply in_edge_lines in H. rewrite edge_lines_write_gdf in H.
  destruct (written_write_node_labels df) as [Hw Ho].
  assert (Hnodes : forall a n,
             In (a, n) (firstn (shape0 df) (enumerate (columns df))) ->
             fails StOpen = false ->
             In (NodeLine a n) (written (trace (write_gdf fails df path thr)))).
  { intros a n Han Hopen. rewrite written_write_gdf, Hopen.
    right. apply in_or_app. left. rewrite Hw.
    apply in_map_iff. now exists (a, n). }
  destruct (fails StOpen) eqn:Hopen; [contradiction|].
  destruct (outcome (write_node_labels df)) eqn:Hout; [|contradiction].
  apply in_edge_lines, in_write_edge_weights in H as (Hi & _ & Hji & _).
  destruct (shape0 df <=? shape1 df)%nat eqn:E; [|discriminate].
  apply Nat.leb_le in E. unfold shape1 in E.
  destruct (in_firstn_enumerate (columns df) (shape0 df) i Hi E) as [ni Hni].
  destruct (in_firstn_enumerate (columns df) (shape0 df) j) as [nj Hnj]; [lia | exact E |].
  exists ni, nj. split; apply Hnodes; auto.
Qed.

Lemma write_gdf_edges_join_nodes_witness :
  In (EdgeLine 1 0 0.5%float)
     (written (trace (write_gdf no_failure demo_df "x.gdf" CORR_THRESHOLD))) /\
  exists ni nj,
    In (NodeLine 1 ni)
       (written (trace (write_gdf no_failure demo_df "x.gdf" CORR_THRESHOLD))) /\
    In (NodeLine 0 nj)
       (written (trace (write_gdf no_failure demo_df "x.gdf" CORR_THRESHOLD))).
Proof.
  assert (H : In (EdgeLine 1 0 0.5%float)
                (written (trace (write_gdf no_failure demo_df "x.gdf"
                                   CORR_THRESHOLD)))).
  { vm_compute. auto 10. }
  split; [exact H|].
  exact (write_gdf_edges_join_nodes no_failure demo_df "x.gdf" CORR_THRESHOLD
           1 0 0.5%float H).
Defined.

(** ** The dropped columns *)

Lemma chars_app (a b : string) :
  list_ascii_of_string (a ++ b) =
  list_ascii_of_string a ++ list_ascii_of_string b.
Proof. induction a as [|c a IH]; simpl; [reflexivity | now rewrite IH]. Qed.

Lemma in_chars_appended (s : string) (k : nat) (c : ascii) :
  In c (list_ascii_of_string s) -> In c (list_ascii_of_string (appended s k)).
Proof.
  revert s. induction k as [|k IH]; intros s H; [exact H|].
  simpl. apply IH. rewrite chars_app. apply in_or_app. now left.
Qed.

(** Every name of an indicator column holds the replacement character,
    whether or not [cbind] added a number to it. *)
Lemma replace_char_in_indicator_name (a b n : string) (k : nat) :
  renamed (appended (join2 a b) k) n ->
  In "_"%char (list_ascii_of_string n).
Proof.
  assert (H : In "_"%char (list_ascii_of_string (appended (join2 a b) k))).
  { apply in_chars_appended. unfold join2. rewrite !chars_app.
    apply in_or_app. right. now left. }
  intros [->|[i ->]]; [exact H|].
  rewrite chars_app. apply in_or_app. now left.
Qed.

(** X15: on a run in which nothing fails, over a parsed frame with
    distinct column names, a column named in [DROP_LIST] is no node of
    the graph: it is removed before the encoding, and no indicator can
    take its name, since every indicator name holds the replacement
    character. *)
Theorem dropped_column_is_no_node
    (B : Backend) (fails : oracle) (parsed : H2OFrame) (d : string) (i : nat) :
  (forall st, fails st = false) ->
  NoDup (names parsed) ->
  In d DROP_LIST ->
  ~ In (NodeLine i d) (written (trace (main B fails parsed))).
Proof.
  intros Hup Hnd Hd Hnode.
  destruct (drop_list parsed DROP_LIST) as [fr|e] eqn:Edrop.
  2:{ rewrite (main_no_frame B fails parsed e Hup) in Hnode;
        [exact Hnode | now left]. }
  destruct (drop_list_inv _ _ _ Edrop) as [_ ->].
  set (fr := without_list parsed DROP_LIST) in *.
  assert (Hfr : NoDup (names fr)) by (apply NoDup_names_filter, Hnd).
  destruct (encode_list B fr) as [enc|e] eqn:Eenc.
  2:{ rewrite (main_no_frame B fails parsed e Hup) in Hnode;
        [exact Hnode | right; eauto]. }
  destruct (encode_list_inv B fr enc Hfr Eenc) as (_ & Henc & _ & Hcols).
  destruct (encoding_loop_ok B fails fr enc (Hup StEncode) Hfr Henc Hcols)
    as (st & made & Erun & Efr & _ & _ & _ & Hmade & _).
  destruct (main_lines B fails parsed fr enc st Hup Edrop Eenc Erun)
    as (Hnodes & _).
  apply Hnodes in Hnode as [Hin _]. apply in_enumerate_snd in Hin.
  apply in_input_list in Hin as (c & Hc & E & _).
  rewrite Efr in Hc. apply in_app_or in Hc as [Hc|Hc].
  - apply In_without_list in Hc as [Hc _]. unfold fr in Hc.
    apply In_without_list in Hc as [_ Hc]. apply Hc. now rewrite E.
  - apply in_map_iff in Hc as (dn & <- & Hdn).
    rewrite Forall_forall in Hmade.
    destruct (Hmade dn Hdn)
      as (col & lv & level & k & _ & _ & _ & _ & Ek & _ & Hren).
    rewrite Ek, E in Hren.
    apply replace_char_in_indicator_name in Hren.
    destruct Hd as [<-|[]]. simpl in Hren. intuition discriminate.
Qed.

Lemma dropped_column_is_no_node_witness :
  (forall st, no_failure st = false) /\
  NoDup (names demo_frame) /\
  In "id" (names demo_frame) /\
  In "id" DROP_LIST /\
  ~ In (NodeLine 0 "id") (written (trace (main demo_backend no_failure demo_frame))).
Proof.
  split; [reflexivity|]. split; [exact NoDup_names_demo_frame|].
  split; [now left|]. split; [now left|].
  apply (dropped_column_is_no_node demo_backend no_failure demo_frame "id" 0);
    [reflexivity | exact NoDup_names_demo_frame | now left].
Defined.
